(** * NEXEN: research pipeline, client event stream and memory retrieval

    A shallow embedding of the parts of the NEXEN repository that carry
    behaviour:

    - [Json], [ResearchApi]: the SSE consumer [researchApi.executeResearch]
      of [web/frontend/lib/api.ts], with the platform's [JSON.parse],
      property access and truthiness made explicit;
    - [AiTeams]: [handleDeleteProfile] of [app/(main)/ai-teams/page.tsx];
    - [Memory]: [MemoryRetriever.retrieve_context] and
      [ArchivistAgent.generate_insights] of [doc/Memory_System.md];
    - [Decomposer], [Orchestrator]: the backend scheduler, which the
      repository only describes (database schema, API contract);
    - [StreamApi]: the other five stream consumers of [lib/api.ts]
      ([aiWriting], [generateContent], [generateRecommendation],
      [analyzeImage], [analyzeUploadedImage]);
    - [AiResearch], [AiResearchPage]: the task list ([TasksTab]) and
      [handleExecuteResearch] of [app/(main)/ai-research/page.tsx];
    - [AiTeamsList]: the agent list of [app/(main)/ai-teams/page.tsx]. *)

From Stdlib Require Import ZArith Lia Ascii String List Sorted.
From stdpp Require Import base option list strings gmap.

Local Open Scope string_scope.
Local Open Scope list_scope.
Local Open Scope nat_scope.
#[local] Set Warnings "-register-all".

(** ** JSON values as [JSON.parse] produces them *)

Module Json.

(** A JSON number literal is kept exactly: sign, decimal mantissa, decimal
    exponent.  Its value is [(-1)^neg * mant * 10^exp10]. *)
Inductive json : Type :=
| JNull
| JBool (b : bool)
| JNum (neg : bool) (mant : N) (exp10 : Z)
| JStr (s : string)
| JArr (items : list json)
| JObj (members : list (string * json)).

(** The double quote, U+0022, built from its code. *)
Definition dquote : ascii := ascii_of_nat 34.

Definition is_ws (c : ascii) : bool :=
  let n := nat_of_ascii c in
  (n =? 32)%nat || (n =? 9)%nat || (n =? 10)%nat || (n =? 13)%nat.

Fixpoint skip_ws (s : string) : string :=
  match s with
  | String c r => if is_ws c then skip_ws r else s
  | EmptyString => s
  end.

Definition digit_of (c : ascii) : option N :=
  let n := N_of_ascii c in
  if ((48 <=? n) && (n <=? 57))%N then Some (n - 48)%N else None.

Definition hex_of (c : ascii) : option N :=
  let n := N_of_ascii c in
  if ((48 <=? n) && (n <=? 57))%N then Some (n - 48)%N
  else if ((97 <=? n) && (n <=? 102))%N then Some (n - 87)%N
  else if ((65 <=? n) && (n <=? 70))%N then Some (n - 55)%N
  else None.

(** [read_digits acc cnt s]: the longest run of decimal digits at the head
    of [s], accumulated into [acc]; [cnt] counts them. *)
Fixpoint read_digits (acc : N) (cnt : nat) (s : string) : N * nat * string :=
  match s with
  | String c r =>
      match digit_of c with
      | Some d => read_digits (10 * acc + d)%N (S cnt) r
      | None => (acc, cnt, s)
      end
  | EmptyString => (acc, cnt, s)
  end.

(** The integer part of a number: [0], or a non-zero digit followed by
    digits (a leading zero ends the integer part). *)
Definition read_int (s : string) : option (N * string) :=
  match s with
  | String c r =>
      match digit_of c with
      | Some 0%N => Some (0%N, r)
      | Some d => let '(m, _, r') := read_digits d 1 r in Some (m, r')
      | None => None
      end
  | EmptyString => None
  end.

Definition read_frac (m : N) (s : string) : option (N * nat * string) :=
  match s with
  | String "." r =>
      let '(m', k, r') := read_digits m 0 r in
      match k with O => None | S _ => Some (m', k, r') end
  | _ => Some (m, O, s)
  end.

Definition read_exp (s : string) : option (Z * string) :=
  let digits (sg : Z) (r : string) :=
    let '(e, k, r') := read_digits 0 0 r in
    match k with O => None | S _ => Some ((sg * Z.of_N e)%Z, r') end in
  match s with
  | String c r =>
      if (Ascii.eqb c "e" || Ascii.eqb c "E")%bool then
        match r with
        | String "+" r' => digits 1%Z r'
        | String "-" r' => digits (-1)%Z r'
        | _ => digits 1%Z r
        end
      else Some (0%Z, s)
  | EmptyString => Some (0%Z, s)
  end.

Definition parse_number (s : string) : option (json * string) :=
  let '(neg, s1) :=
    match s with String "-" r => (true, r) | _ => (false, s) end in
  '(i, s2) ← read_int s1;
  '(m, k, s3) ← read_frac i s2;
  '(e, s4) ← read_exp s3;
  Some (JNum neg m (e - Z.of_nat k), s4).

(** The UTF-8 bytes of a code unit given by a [\uXXXX] escape (a surrogate
    half is written as its own three bytes). *)
Definition utf8_of_unit (u : N) : string :=
  let b (n : N) := ascii_of_N n in
  if (u <? 128)%N then String (b u) ""
  else if (u <? 2048)%N then
    String (b (192 + u / 64)%N) (String (b (128 + u mod 64)%N) "")
  else
    String (b (224 + u / 4096)%N)
      (String (b (128 + (u / 64) mod 64)%N) (String (b (128 + u mod 64)%N) "")).

Definition hex4 (a b c d : ascii) : option N :=
  x1 ← hex_of a; x2 ← hex_of b; x3 ← hex_of c; x4 ← hex_of d;
  Some (((x1 * 16 + x2) * 16 + x3) * 16 + x4)%N.

(** The characters of a string literal after its opening quote, up to the
    closing quote. *)
Fixpoint parse_string_body (s : string) : option (string * string) :=
  match s with
  | EmptyString => None
  | String c r =>
      if Ascii.eqb c dquote then Some ("", r)
      else if Ascii.eqb c "\" then
        match r with
        | String e r1 =>
            let simple (x : ascii) (k : string) :=
              '(t, k') ← parse_string_body k; Some (String x t, k') in
            if Ascii.eqb e dquote then simple dquote r1
            else if Ascii.eqb e "\" then simple "\"%char r1
            else if Ascii.eqb e "/" then simple "/"%char r1
            else if Ascii.eqb e "b" then simple (ascii_of_nat 8) r1
            else if Ascii.eqb e "f" then simple (ascii_of_nat 12) r1
            else if Ascii.eqb e "n" then simple (ascii_of_nat 10) r1
            else if Ascii.eqb e "r" then simple (ascii_of_nat 13) r1
            else if Ascii.eqb e "t" then simple (ascii_of_nat 9) r1
            else if Ascii.eqb e "u" then
              match r1 with
              | String h1 (String h2 (String h3 (String h4 r2))) =>
                  u ← hex4 h1 h2 h3 h4;
                  '(t, k') ← parse_string_body r2;
                  Some (utf8_of_unit u +:+ t, k')
              | _ => None
              end
            else None
        | EmptyString => None
        end
      else if (nat_of_ascii c <? 32)%nat then None
      else '(t, k') ← parse_string_body r; Some (String c t, k')
  end.

Definition expect (lit : string) (v : json) (s : string)
  : option (json * string) :=
  if String.prefix lit s
  then Some (v, String.substring (String.length lit)
                  (String.length s - String.length lit) s)
  else None.

(** Recursive descent over values; [fuel] bounds the nesting and the number
    of elements, and [JSON_parse] below supplies more than the input can
    use. *)
Fixpoint parse_value (fuel : nat) (s : string) : option (json * string) :=
  match fuel with
  | O => None
  | S fuel =>
      match skip_ws s with
      | String c r =>
          if Ascii.eqb c "{" then
            match skip_ws r with
            | String "}" r' => Some (JObj [], r')
            | r' => '(ms, k) ← parse_members fuel [] r'; Some (JObj ms, k)
            end
          else if Ascii.eqb c "[" then
            match skip_ws r with
            | String "]" r' => Some (JArr [], r')
            | r' => '(vs, k) ← parse_elements fuel [] r'; Some (JArr vs, k)
            end
          else if Ascii.eqb c dquote then
            '(t, k) ← parse_string_body r; Some (JStr t, k)
          else if Ascii.eqb c "t" then expect "true" (JBool true) (String c r)
          else if Ascii.eqb c "f" then expect "false" (JBool false) (String c r)
          else if Ascii.eqb c "n" then expect "null" JNull (String c r)
          else parse_number (String c r)
      | EmptyString => None
      end
  end
with parse_elements (fuel : nat) (acc : list json) (s : string)
  : option (list json * string) :=
  match fuel with
  | O => None
  | S fuel =>
      '(v, k) ← parse_value fuel s;
      match skip_ws k with
      | String "," k' => parse_elements fuel (acc ++ [v]) k'
      | String "]" k' => Some ((acc ++ [v]), k')
      | _ => None
      end
  end
with parse_members (fuel : nat) (acc : list (string * json)) (s : string)
  : option (list (string * json) * string) :=
  match fuel with
  | O => None
  | S fuel =>
      match skip_ws s with
      | String c r =>
          if Ascii.eqb c dquote then
            '(key, k) ← parse_string_body r;
            match skip_ws k with
            | String ":" k1 =>
                '(v, k2) ← parse_value fuel k1;
                match skip_ws k2 with
                | String "," k' => parse_members fuel (acc ++ [(key, v)]) k'
                | String "}" k' => Some ((acc ++ [(key, v)]), k')
                | _ => None
                end
            | _ => None
            end
          else None
      | EmptyString => None
      end
  end.

(** [JSON.parse(text)]: one value, surrounded by white space only.  [None]
    stands for the [SyntaxError] it throws. *)
Definition JSON_parse (text : string) : option json :=
  '(v, k) ← parse_value (2 * String.length text + 2) text;
  match skip_ws k with
  | EmptyString => Some v
  | _ => None
  end.

(** A JavaScript value read out of a parsed document: [None] is
    [undefined]. *)
Definition value : Type := option json.

(** Own property lookup on an object built by [JSON.parse]: of duplicate
    keys the last one wins. *)
Fixpoint lookup_member (k : string) (ms : list (string * json)) : value :=
  match ms with
  | [] => None
  | (k', v) :: ms' =>
      match lookup_member k ms' with
      | Some w => Some w
      | None => if String.eqb k k' then Some v else None
      end
  end.

(** [data.error].  Reading a property of [null] throws a [TypeError]
    (outer [None]); booleans, numbers, strings and arrays have no property
    of that name. *)
Definition get_error (data : json) : option value :=
  match data with
  | JNull => None
  | JObj ms => Some (lookup_member "error" ms)
  | _ => Some None
  end.

(** A number literal denotes the double nearest to its value (ties to
    even); that double is zero exactly when the value is at most
    [2^-1075] in magnitude. *)
Definition number_is_zero (mant : N) (exp10 : Z) : bool :=
  (mant =? 0)%N ||
  ((exp10 <? 0)%Z &&
   (Z.of_N mant * 2 ^ 1075 <=? 10 ^ (- exp10))%Z).

(** [ToBoolean]. *)
Definition truthy (v : value) : bool :=
  match v with
  | None => false
  | Some JNull => false
  | Some (JBool b) => b
  | Some (JNum _ m e) => negb (number_is_zero m e)
  | Some (JStr s) => negb (String.eqb s "")
  | Some (JArr _) => true
  | Some (JObj _) => true
  end.

(** Text with a double quote wherever the argument has a single quote; used
    to write JSON documents in examples. *)
Fixpoint q (s : string) : string :=
  match s with
  | EmptyString => EmptyString
  | String c r => String (if Ascii.eqb c "'" then dquote else c) (q r)
  end.

End Json.


(** ** The SSE consumer of [lib/api.ts] *)

Module ResearchApi.
Import Json.

(** What [executeResearch] does to its caller: the callbacks it invokes,
    with their argument. *)
Inductive call : Type :=
| OnError (e : value)
| OnEvent (d : json).

Inductive exn : Type :=
| SyntaxError      (* JSON.parse *)
| TypeError        (* property read on null *)
| CallbackError    (* whatever a callback throws *)
| HttpError        (* new Error(error.detail || ...) on a non-ok response *)
| ReadError.       (* reader.read() rejects *)

Inductive outcome (A : Type) : Type :=
| Ok (a : A)
| Throw (e : exn).
Arguments Ok {A} a.
Arguments Throw {A} e.

(** Computations that invoke callbacks (a log of calls, oldest first) and
    may throw. *)
Definition M (A : Type) : Type := list call → list call * outcome A.

Definition ret {A} (a : A) : M A := λ tr, (tr, Ok a).
Definition throw {A} (e : exn) : M A := λ tr, (tr, Throw e).
Definition bind {A B} (m : M A) (k : A → M B) : M B :=
  λ tr, match m tr with
        | (tr', Ok a) => k a tr'
        | (tr', Throw e) => (tr', Throw e)
        end.
Definition try_catch {A} (m : M A) (h : exn → M A) : M A :=
  λ tr, match m tr with
        | (tr', Ok a) => (tr', Ok a)
        | (tr', Throw e) => h e tr'
        end.
Definition invoke (c : call) : M unit := λ tr, (tr ++ [c], Ok tt).
Definition lift {A} (e : exn) (o : option A) : M A :=
  match o with Some a => ret a | None => throw e end.

#[global] Instance M_ret : MRet M := @ret.
#[global] Instance M_bind : MBind M := λ A B k m, bind m k.

(** The two callbacks.  Each is given by whether it throws on an argument;
    [onError] is optional. *)
Record callbacks : Type := {
  onEvent_throws : json → bool;
  onError : option (value → bool);
}.

Definition call_onEvent (cb : callbacks) (d : json) : M unit :=
  invoke (OnEvent d) ;;
  if onEvent_throws cb d then throw CallbackError else ret tt.

(** [onError?.(e)] *)
Definition call_onError (cb : callbacks) (e : value) : M unit :=
  match onError cb with
  | None => ret tt
  | Some throws =>
      invoke (OnError e) ;;
      if throws e then throw CallbackError else ret tt
  end.

Definition newline : ascii := ascii_of_nat 10.

(** [chunk.split('\n')] *)
Fixpoint split (s : string) : list string :=
  match s with
  | EmptyString => [EmptyString]
  | String c r =>
      if Ascii.eqb c newline then EmptyString :: split r
      else match split r with
           | h :: t => String c h :: t
           | [] => [String c EmptyString]
           end
  end.

(** [line.slice(n)] *)
Fixpoint slice (n : nat) (s : string) : string :=
  match n, s with
  | S n', String _ r => slice n' r
  | _, _ => s
  end.

(** The body of the [for (const line of lines)] loop. *)
Definition handle_line (cb : callbacks) (line : string) : M unit :=
  if String.prefix "data: " line then
    try_catch
      (data ← lift SyntaxError (JSON_parse (slice 6 line));
       err ← lift TypeError (get_error data);
       if truthy err then call_onError cb err
       else call_onEvent cb data)
      (λ _, ret tt)   (* Skip invalid JSON lines *)
  else ret tt.

Fixpoint for_each {A} (f : A → M unit) (l : list A) : M unit :=
  match l with
  | [] => ret tt
  | x :: l' => f x ;; for_each f l'
  end.

(** One turn of the [while (reader)] loop on a chunk already decoded by
    [decoder.decode(value)]. *)
Definition handle_chunk (cb : callbacks) (chunk : string) : M unit :=
  for_each (handle_line cb) (split chunk).

(** How the body stream ends: [done], or a rejected [read()]. *)
Inductive stream_end : Type := Done | Broken.

Record response : Type := {
  ok : bool;
  body : option (list string * stream_end);
}.

Definition executeResearch (cb : callbacks) (r : response) : M unit :=
  if negb (ok r) then throw HttpError
  else match body r with
       | None => ret tt          (* no reader: the loop never runs *)
       | Some (chunks, fin) =>
           for_each (handle_chunk cb) chunks ;;
           match fin with Done => ret tt | Broken => throw ReadError end
       end.

(** The callbacks a line gives rise to, case by case. *)
Definition line_calls (cb : callbacks) (line : string) : list call :=
  if String.prefix "data: " line then
    match JSON_parse (slice 6 line) with
    | None => []
    | Some JNull => []
    | Some data =>
        let err := match data with
                   | JObj ms => lookup_member "error" ms
                   | _ => None
                   end in
        if truthy err
        then match onError cb with Some _ => [OnError err] | None => [] end
        else [OnEvent data]
    end
  else [].

(** The reading of the property that takes every payload that parses and
    has no truthy [error] to [onEvent]. *)
Definition line_calls_claimed (cb : callbacks) (line : string) : list call :=
  if String.prefix "data: " line then
    match JSON_parse (slice 6 line) with
    | None => []
    | Some data =>
        let err := match data with
                   | JObj ms => lookup_member "error" ms
                   | _ => None
                   end in
        if truthy err
        then match onError cb with Some _ => [OnError err] | None => [] end
        else [OnEvent data]
    end
  else [].

(** *** A subscriber and a stream to run it on *)

(** A subscriber that never throws and passes both callbacks. *)
Definition quiet : callbacks :=
  {| onEvent_throws := λ _, false; onError := Some (λ _, false) |}.

Definition nl : string := String newline EmptyString.

Definition streamed (chunks : list string) : response :=
  {| ok := true; body := Some (chunks, Done) |}.

(** The [type] field of a delivered event. *)
Definition event_type (c : call) : option string :=
  match c with
  | OnEvent (JObj ms) =>
      match lookup_member "type" ms with
      | Some (JStr t) => Some t
      | _ => None
      end
  | _ => None
  end.

(** Three events of one task, as the backend writes them. *)
Definition ev_started : string :=
  q "data: {'type': 'task_started', 'data': {'task_id': 't1'}}".

Definition ev_completed_head : string := q "data: {'type': 'task_comp".

Definition ev_completed_tail : string :=
  q "leted', 'data': {'task_id': 't1', 'progress': 100}}".

Definition ev_session_completed : string :=
  q "data: {'type': 'session_completed', 'data': {'session_id': 's1'}}".

Definition whole_body : string :=
  ev_started +:+ nl +:+ nl +:+
  ev_completed_head +:+ ev_completed_tail +:+ nl +:+ nl +:+
  ev_session_completed +:+ nl +:+ nl.

Definition first_chunk : string :=
  ev_started +:+ nl +:+ nl +:+ ev_completed_head.

Definition second_chunk : string :=
  ev_completed_tail +:+ nl +:+ nl +:+ ev_session_completed +:+ nl +:+ nl.

End ResearchApi.

(** ** The delete handler of the Research Team page *)

Module AiTeams.

(** The fields of [AgentProfile] the handler reads. *)
Record AgentProfile : Type := {
  id : string;
  display_name : string;
  is_custom : bool;
}.

(** The component state the handler touches, and the [DELETE
    /agents/profiles/{id}] requests it has sent. *)
Record page : Type := {
  profiles : list AgentProfile;
  selectedProfile : option AgentProfile;
  error : option string;
  requests : list string;
}.

(** What the handler cannot decide by itself: the user's answer to
    [confirm(...)] and the backend's answer to the request
    ([fetchApiWithAuth] throws an [Error] carrying a message when the
    response is not ok). *)
Inductive api_result : Type :=
| Deleted
| Rejected (message : string).

Record env : Type := {
  confirm : AgentProfile → bool;
  deleteProfile : string → api_result;
}.

Definition setError (msg : string) (st : page) : page :=
  {| profiles := profiles st; selectedProfile := selectedProfile st;
     error := Some msg; requests := requests st |}.

Definition handleDeleteProfile (e : env) (profile : AgentProfile) (st : page)
  : page :=
  if negb (is_custom profile) then
    setError "Cannot delete default agents" st
  else if negb (confirm e profile) then st
  else
    let sent := requests st ++ [id profile] in
    match deleteProfile e (id profile) with
    | Deleted =>
        {| profiles :=
             filter (λ p, id p ≠ id profile) (profiles st);
           selectedProfile :=
             match selectedProfile st with
             | Some sel =>
                 if String.eqb (id sel) (id profile) then None else Some sel
             | None => None
             end;
           error := error st;
           requests := sent |}
    | Rejected message =>
        {| profiles := profiles st; selectedProfile := selectedProfile st;
           error := Some message; requests := sent |}
    end.

(** *** A team to run the handler on *)

Definition explorer : AgentProfile :=
  {| id := "p-explorer"; display_name := "Explorer"; is_custom := false |}.

Definition my_agent : AgentProfile :=
  {| id := "p-custom"; display_name := "Explorer (Clone)";
     is_custom := true |}.

Definition team : page :=
  {| profiles := [my_agent; explorer]; selectedProfile := Some explorer;
     error := None; requests := [] |}.

(** A user who confirms and a backend that deletes. *)
Definition willing : env :=
  {| confirm := λ _, true; deleteProfile := λ _, Deleted |}.

End AiTeams.

(** ** Memory retrieval and the Archivist's insight pass *)

Module Memory.

(** The methods of [self] that [retrieve_context] calls and the document
    does not define.  Insights and digests are texts, raw references are
    paths; every method reads the store the retriever is bound to. *)
Class Retriever : Type := {
  load_insights : list string → string;
  count_tokens : string → nat;
  search_digests : string → string → nat → list string;
  search_raw : string → nat → list string;
}.

(** The tagged pairs appended to [results]. *)
Inductive entry : Type :=
| L2_insights (text : string)
| L1_digest (text : string)
| L0_refs (paths : list string).

#[global] Instance entry_eq_dec : EqDecision entry.
Proof. solve_decision. Defined.

(** [format_results] and [extract_sources] are functions of [results];
    the context keeps [results] itself. *)
Record RetrievedContext : Type := {
  results : list entry;
  token_count : Z;
}.

Definition always_loaded : list string :=
  ["key_findings.md"; "open_questions.md"].

Section retrieve.
Context `{R : Retriever}.

(** Step 2, the loop over [relevant_digests]. *)
Fixpoint add_digests (token_budget : Z) (digests : list string)
    (res : list entry) : list entry * Z :=
  match digests with
  | [] => (res, token_budget)
  | digest :: rest =>
      if (token_budget <? 1000)%Z then (res, token_budget)
      else add_digests (token_budget - Z.of_nat (count_tokens digest))%Z rest
             (res ++ [L1_digest digest])
  end.

Definition retrieve_context (query agent : string) (max_tokens : Z)
  : RetrievedContext :=
  let res := [] in
  let token_budget := max_tokens in
  (* Step 1: insights *)
  let insights := load_insights ["key_findings.md"; "open_questions.md"] in
  let res := res ++ [L2_insights insights] in
  let token_budget := (token_budget - Z.of_nat (count_tokens insights))%Z in
  (* Step 2: digests of the other agents *)
  let relevant_digests := search_digests query agent 3 in
  let '(res, token_budget) := add_digests token_budget relevant_digests res in
  (* Step 3: raw references *)
  let res :=
    if (500 <? token_budget)%Z then res ++ [L0_refs (search_raw query 3)]
    else res in
  {| results := res; token_count := (max_tokens - token_budget)%Z |}.

(** Tokens of a list of digests. *)
Definition spent (digests : list string) : Z :=
  foldr (λ d n, (Z.of_nat (count_tokens d) + n)%Z) 0%Z digests.

End retrieve.

(** The L2 and L1 part of a bundle. *)
Definition is_ref (e : entry) : bool :=
  match e with L0_refs _ => true | _ => false end.
Definition texts (c : RetrievedContext) : list entry :=
  List.filter (λ e, negb (is_ref e)) (results c).

(** *** A store to run the retriever on *)

Record digest_file : Type := {
  digest_agent : string;
  digest_text : string;
}.

Record raw_file : Type := {
  raw_path : string;
  raw_text : string;
}.

(** An insight file: its text and the time it was last written. *)
Record insight_file : Type := {
  content : string;
  modified : nat;
}.

(** The three layers of one session. *)
Record store : Type := {
  raw : list raw_file;                    (* L0, append only *)
  digest : list digest_file;              (* L1 *)
  insights : gmap string insight_file;    (* L2, by file name *)
}.

Fixpoint contains (needle hay : string) : bool :=
  String.prefix needle hay ||
  match hay with
  | EmptyString => false
  | String _ r => contains needle r
  end.

(** Keep the elements of [l] in order of decreasing score, earlier
    elements first among equals. *)
Fixpoint insert_by {A} (score : A → nat) (x : A) (l : list A) : list A :=
  match l with
  | [] => [x]
  | y :: l' =>
      if (score y <? score x)%nat then x :: l else y :: insert_by score x l'
  end.
Definition rank_by {A} (score : A → nat) (l : list A) : list A :=
  foldr (insert_by score) [] l.

(** Modelled from the spec: the retriever's helpers, absent from the
    sources.  Insights are read by file name (a missing file reads as
    empty); digests are ranked by a relevance score with the requesting
    agent's own digest left out, best [top_k] kept; raw files are matched
    on the query and only their paths returned; the token count is
    proportional to the length of the text. *)
Definition store_retriever (relevance : string → string → nat) (s : store)
  : Retriever := {|
  load_insights names :=
    String.concat ""
      (map (λ n, default "" (content <$> insights s !! n)) names);
  count_tokens text := String.length text;
  search_digests query exclude_agent top_k :=
    take top_k
      (rank_by (relevance query)
         (map digest_text
            (List.filter
               (λ d, negb (String.eqb (digest_agent d) exclude_agent))
               (digest s))));
  search_raw query limit :=
    take limit
      (map raw_path (List.filter (λ f, contains query (raw_text f)) (raw s)));
|}.

(** Keyword overlap in its simplest form. *)
Definition keyword_relevance (query text : string) : nat :=
  if contains query text then 1 else 0.

(** *** The Archivist *)

(** What [llm.synthesize] is asked to return. *)
Record synthesis : Type := {
  key_findings : string;
  open_questions : string;
  action_items : string;
  contradictions : string;
}.

(** Modelled from the spec: [read_all_digests] and [write_insights], absent
    from the sources.  A write to L2 at time [now] replaces the content
    stored under the file's name, stamps it, and leaves the other files
    and layers alone. *)
Definition read_all_digests (s : store) : list digest_file := digest s.

Definition write_file (now : nat) (name text : string)
    (files : gmap string insight_file) : gmap string insight_file :=
  <[name := {| content := text; modified := now |}]> files.

Definition write_insights (now : nat) (i : synthesis) (s : store) : store :=
  {| raw := raw s;
     digest := digest s;
     insights :=
       write_file now "key_findings.md" (key_findings i)
         (write_file now "open_questions.md" (open_questions i)
            (write_file now "action_items.md" (action_items i)
               (write_file now "contradictions.md" (contradictions i)
                  (insights s)))) |}.

Section archivist.
(** The model behind [self.llm], as a function of the prompt material. *)
Variable llm_synthesize : list digest_file → synthesis.

(** The pass, run at time [now]. *)
Definition generate_insights (now : nat) (s : store) : store :=
  let all_digests := read_all_digests s in
  let insights := llm_synthesize all_digests in
  write_insights now insights s.

End archivist.

(** The text of every insight file, by name. *)
Definition insight_contents (s : store) : gmap string string :=
  content <$> insights s.

(** An agent writes one more raw record. *)
Definition write_raw (f : raw_file) (s : store) : store :=
  {| raw := raw s ++ [f]; digest := digest s; insights := insights s |}.

(** *** Two retrievers to run *)

(** 600 tokens a character: the insights [K] and the one digest [D] cost
    600 tokens each. *)
Definition fixed : Retriever := {|
  load_insights := λ _, "K";
  count_tokens := λ text, 600 * String.length text;
  search_digests := λ _ _ _, ["D"];
  search_raw := λ _ _, ["raw/explorer/20260115_102345.md"];
|}.

Definition fixed_bundle (B : Z) : RetrievedContext :=
  @retrieve_context fixed "mamba" "critic" B.

Definition by_score {A} (score : A → nat) (x y : A) : Prop :=
  score y ≤ score x.

Definition session_store : store := {|
  raw :=
    [ {| raw_path := "raw/explorer/20260115_102345.md";
         raw_text := "mamba has linear time complexity" |};
      {| raw_path := "raw/historian/20260115_110023.md";
         raw_text := "state space models since 2020" |} ];
  digest :=
    [ {| digest_agent := "explorer"; digest_text := "mamba: O(n)" |};
      {| digest_agent := "critic"; digest_text := "mamba: short inputs?" |};
      {| digest_agent := "historian"; digest_text := "S4 came first" |} ];
  insights :=
    {[ "key_findings.md" := {| content := "F"; modified := 5 |};
       "open_questions.md" := {| content := "Q"; modified := 5 |};
       "contradictions.md" := {| content := "X"; modified := 3 |} ]};
|}.

Definition session_bundle (agent : string) (B : Z) : RetrievedContext :=
  @retrieve_context (store_retriever keyword_relevance session_store)
    "mamba" agent B.

End Memory.

(** ** The task graph *)

Module Decomposer.

Inductive priority : Type := critical | high | medium | low.
Inductive task_status : Type :=
  pending | in_progress | completed | failed | skipped.

#[global] Instance priority_eq_dec : EqDecision priority.
Proof. solve_decision. Defined.
#[global] Instance task_status_eq_dec : EqDecision task_status.
Proof. solve_decision. Defined.

(** [ResearchTaskItem] of [lib/api.ts] (the [research_tasks] table),
    without the session link, parent, output and timestamps. *)
Record ResearchTask : Type := {
  id : string;
  description : string;
  assigned_agent : string;
  task_priority : priority;
  status : task_status;
  dependencies : list string;
  execution_order : nat;
  execution_group : nat;
}.

#[global] Instance ResearchTask_eq_dec : EqDecision ResearchTask.
Proof. solve_decision. Defined.

(** One subtask as the Meta-Coordinator's model call proposes it. *)
Record subtask : Type := {
  sub_id : string;
  sub_description : string;
  sub_agent : string;
  sub_priority : priority;
  sub_dependencies : list string;
}.

Inductive DecompositionError : Type :=
| NoTasks
| MissingAgent (agent_type : string)
| InvalidGraph.

Definition priority_rank (p : priority) : nat :=
  match p with critical => 0 | high => 1 | medium => 2 | low => 3 end.

(** A subtask is ready once every dependency has a group. *)
Definition ready (done : gmap string nat) (t : subtask) : bool :=
  forallb (λ d, bool_decide (is_Some (done !! d))) (sub_dependencies t).

Definition assign (k : nat) (ts : list subtask) (done : gmap string nat)
  : gmap string nat :=
  foldr (λ t m, <[sub_id t := k]> m) done ts.

(** Modelled from the spec: the layering of section 4.1.  Group [k] takes
    the subtasks all of whose dependencies lie in groups below [k]; a round
    that places nothing while subtasks remain means the dependencies are
    cyclic or name no subtask. *)
Fixpoint layer (fuel k : nat) (done : gmap string nat)
    (waiting : list subtask) : option (gmap string nat) :=
  match waiting with
  | [] => Some done
  | _ :: _ =>
      match fuel with
      | O => None
      | S fuel' =>
          match List.filter (ready done) waiting with
          | [] => None
          | now =>
              layer fuel' (S k) (assign k now done)
                (List.filter (λ t, negb (ready done t)) waiting)
          end
      end
  end.

(** The place of a task inside its group: by priority, then by position in
    the plan. *)
Definition order_in_group (groups : gmap string nat) (plan : list subtask)
    (i : nat) (t : subtask) : nat :=
  length
    (List.filter
       (λ '(j, u),
          bool_decide (groups !! sub_id u = groups !! sub_id t) &&
          ((priority_rank (sub_priority u) <? priority_rank (sub_priority t))%nat
           || ((priority_rank (sub_priority u) =? priority_rank (sub_priority t))%nat
               && (j <? i)%nat)))
       (imap pair plan)).

Definition to_task (groups : gmap string nat) (plan : list subtask)
    (i : nat) (t : subtask) : ResearchTask :=
  {| id := sub_id t;
     description := sub_description t;
     assigned_agent := sub_agent t;
     task_priority := sub_priority t;
     status := pending;
     dependencies := sub_dependencies t;
     execution_order := order_in_group groups plan i t;
     execution_group := default 0 (groups !! sub_id t) |}.

(** Modelled from the spec: the Decomposer of section 4.1, absent from the
    sources.  It fails on an empty plan, on a subtask bound to an agent
    type that is not enabled (naming the agent), and on a plan that has no
    layering; otherwise every subtask becomes a pending task with its
    group. *)
Definition build (plan : list subtask) (enabled : list string)
  : DecompositionError + list ResearchTask :=
  match plan with
  | [] => inl NoTasks
  | _ :: _ =>
      match List.filter (λ t, bool_decide (sub_agent t ∉ enabled)) plan with
      | t :: _ => inl (MissingAgent (sub_agent t))
      | [] =>
          if bool_decide (NoDup (map sub_id plan)) then
            match layer (length plan) 0 ∅ plan with
            | Some groups => inr (imap (to_task groups plan) plan)
            | None => inl InvalidGraph
            end
          else inl InvalidGraph
      end
  end.

Section decompose.
(** The Meta-Coordinator's proposal for a task description, given the
    enabled agent types. *)
Variable propose : string → list string → list subtask.

Definition decompose (task_description : string) (enabled : list string)
  : DecompositionError + list ResearchTask :=
  build (propose task_description enabled) enabled.

End decompose.

(** The dependency edges of a task list: [edge ts a b] when task [a] lists
    the id of task [b]. *)
Definition edge (ts : list ResearchTask) (a b : ResearchTask) : Prop :=
  a ∈ ts ∧ b ∈ ts ∧ id b ∈ dependencies a.

(** The graph has no cycle: no task reaches itself along edges. *)
Definition acyclic (ts : list ResearchTask) : Prop :=
  ∀ t, ¬ tc (edge ts) t t.

(** *** The invariant of the layering *)

Section layering.
Variable all : list subtask.

(** What holds between two rounds: the subtasks placed so far lie in groups
    below [k], each above all its dependencies, and the ones without
    dependencies in group 0. *)
Record layered (k : nat) (done : gmap string nat) (waiting : list subtask)
  : Prop := {
  lay_wait_sub : ∀ t, t ∈ waiting → t ∈ all;
  lay_wait_none : ∀ t, t ∈ waiting → done !! sub_id t = None;
  lay_cover : ∀ t, t ∈ all → t ∈ waiting ∨ is_Some (done !! sub_id t);
  lay_dom : ∀ i g, done !! i = Some g → ∃ u, u ∈ all ∧ sub_id u = i;
  lay_lt : ∀ i g, done !! i = Some g → g < k;
  lay_deps : ∀ t g, t ∈ all → done !! sub_id t = Some g →
             ∀ d, d ∈ sub_dependencies t →
             ∃ g', done !! d = Some g' ∧ g' < g;
  lay_zero : ∀ t g, t ∈ all → done !! sub_id t = Some g →
             sub_dependencies t = [] → g = 0;
  lay_first : 0 < k → ∀ t, t ∈ waiting → sub_dependencies t ≠ [];
}.

Definition well_layered (groups : gmap string nat) : Prop :=
  ∀ t, t ∈ all →
    ∃ g, groups !! sub_id t = Some g
         ∧ (sub_dependencies t = [] → g = 0)
         ∧ ∀ d, d ∈ sub_dependencies t →
             ∃ g' u, groups !! d = Some g' ∧ g' < g
                     ∧ u ∈ all ∧ sub_id u = d.

End layering.

(** The groups of the tasks a task depends on. *)
Definition dep_groups (ts : list ResearchTask) (t : ResearchTask)
  : list nat :=
  map execution_group
    (List.filter (λ u, bool_decide (id u ∈ dependencies t)) ts).

(** Groups fall strictly along every edge; tasks without dependencies are
    in group 0; every dependency names a task. *)
Definition graded (ts : list ResearchTask) : Prop :=
  (∀ a b, edge ts a b → execution_group b < execution_group a)
  ∧ (∀ t, t ∈ ts → dependencies t = [] → execution_group t = 0)
  ∧ (∀ t d, t ∈ ts → d ∈ dependencies t → ∃ u, u ∈ ts ∧ id u = d).

(** The example of section 8. *)
Definition example_plan : list subtask :=
  [ {| sub_id := "t1"; sub_description := "literature search";
       sub_agent := "explorer"; sub_priority := high;
       sub_dependencies := [] |};
    {| sub_id := "t2"; sub_description := "complexity analysis";
       sub_agent := "logician"; sub_priority := medium;
       sub_dependencies := ["t1"] |};
    {| sub_id := "t3"; sub_description := "critique";
       sub_agent := "critic"; sub_priority := medium;
       sub_dependencies := ["t1"] |} ].

Definition example_agents : list string := ["explorer"; "logician"; "critic"].

Definition example_tasks : list ResearchTask :=
  [ {| id := "t1"; description := "literature search";
       assigned_agent := "explorer"; task_priority := high;
       status := pending; dependencies := [];
       execution_order := 0; execution_group := 0 |};
    {| id := "t2"; description := "complexity analysis";
       assigned_agent := "logician"; task_priority := medium;
       status := pending; dependencies := ["t1"];
       execution_order := 0; execution_group := 1 |};
    {| id := "t3"; description := "critique";
       assigned_agent := "critic"; task_priority := medium;
       status := pending; dependencies := ["t1"];
       execution_order := 1; execution_group := 1 |} ].

(** A Meta-Coordinator that answers with the plan of section 8. *)
Definition example_propose (_ : string) (_ : list string) : list subtask :=
  example_plan.

End Decomposer.

(** ** The scheduler *)

Module Orchestrator.
Import Decomposer.

(** The state machine of section 4.2:
    created, decomposing, executing(group), synthesizing, completed or
    failed. *)
Inductive phase : Type :=
| Created
| Decomposing
| Executing (group : nat)
| Synthesizing
| Completed
| Failed.

(** The event types of [ResearchEvent] in [lib/api.ts]. *)
Inductive event : Type :=
| session_started
| decomposition_complete
| group_started (group : nat)
| task_started (task_id : string)
| task_progress (task_id : string)
| task_completed (task_id : string)
| task_failed (task_id : string)
| group_completed (group : nat)
| synthesis_started
| synthesis_complete
| session_completed
| error.

#[global] Instance event_eq_dec : EqDecision event.
Proof. solve_decision. Defined.

Record session : Type := {
  session_phase : phase;
  tasks : list ResearchTask;
  retry_count : gmap string nat;
  outputs : list (string * string);   (* task id and raw output *)
  synthesis : option string;
  events : list event;                (* oldest first *)
}.

Definition initial : session :=
  {| session_phase := Created; tasks := []; retry_count := ∅;
     outputs := []; synthesis := None; events := [] |}.

Definition terminal (st : task_status) : Prop :=
  st = completed ∨ st = failed ∨ st = skipped.

#[global] Instance terminal_dec st : Decision (terminal st).
Proof. unfold terminal. apply _. Defined.

Definition with_status (st : task_status) (t : ResearchTask) : ResearchTask :=
  {| id := id t; description := description t;
     assigned_agent := assigned_agent t; task_priority := task_priority t;
     status := st; dependencies := dependencies t;
     execution_order := execution_order t;
     execution_group := execution_group t |}.

(** The status of the task with id [i] becomes [st]. *)
Definition set_status (i : string) (st : task_status)
    (ts : list ResearchTask) : list ResearchTask :=
  map (λ t, if decide (id t = i) then with_status st t else t) ts.

Definition retries (s : session) (i : string) : nat :=
  default 0 (retry_count s !! i).

Definition running (s : session) : nat :=
  length (List.filter (λ t, bool_decide (status t = in_progress)) (tasks s)).

Definition group_done (k : nat) (ts : list ResearchTask) : Prop :=
  ∀ t, t ∈ ts → execution_group t = k → terminal (status t).

Definition last_group (k : nat) (ts : list ResearchTask) : Prop :=
  ∀ t, t ∈ ts → execution_group t ≤ k.

#[global] Instance group_done_dec k ts : Decision (group_done k ts).
Proof.
  refine (cast_if
    (decide (Forall (λ t, execution_group t = k → terminal (status t)) ts)));
    unfold group_done; by rewrite <- Forall_forall.
Defined.

#[global] Instance last_group_dec k ts : Decision (last_group k ts).
Proof.
  refine (cast_if (decide (Forall (λ t, execution_group t ≤ k) ts)));
    unfold last_group; by rewrite <- Forall_forall.
Defined.

(** *** The transitions, as functions on the session *)

Definition update (p : phase) (ts : list ResearchTask) (evs : list event)
    (s : session) : session :=
  {| session_phase := p; tasks := ts; retry_count := retry_count s;
     outputs := outputs s; synthesis := synthesis s;
     events := events s ++ evs |}.

Definition start (s : session) : session :=
  update Decomposing (tasks s) [session_started] s.

Definition decomposed (ts : list ResearchTask) (s : session) : session :=
  update (Executing 0) ts [decomposition_complete; group_started 0] s.

Definition abort (s : session) : session :=
  update Failed
    (map (λ t, if decide (status t = in_progress)
               then with_status failed t else t) (tasks s))
    [error] s.

Definition dispatch (i : string) (s : session) : session :=
  update (session_phase s) (set_status i in_progress (tasks s))
    [task_started i] s.

Definition skip (i : string) (s : session) : session :=
  update (session_phase s) (set_status i skipped (tasks s)) [] s.

Definition progress (i : string) (s : session) : session :=
  update (session_phase s) (tasks s) [task_progress i] s.

(** One more attempt, on the fallback model. *)
Definition retry (i : string) (s : session) : session :=
  {| session_phase := session_phase s; tasks := tasks s;
     retry_count := <[i := S (retries s i)]> (retry_count s);
     outputs := outputs s; synthesis := synthesis s; events := events s |}.

Definition complete (i output : string) (s : session) : session :=
  {| session_phase := session_phase s;
     tasks := set_status i completed (tasks s);
     retry_count := retry_count s;
     outputs := outputs s ++ [(i, output)];
     synthesis := synthesis s;
     events := events s ++ [task_completed i] |}.

Definition fail (i : string) (s : session) : session :=
  update (session_phase s) (set_status i failed (tasks s)) [task_failed i] s.

Definition advance (k : nat) (s : session) : session :=
  update (Executing (S k)) (tasks s)
    [group_completed k; group_started (S k)] s.

Definition synthesizing (k : nat) (s : session) : session :=
  update Synthesizing (tasks s) [group_completed k; synthesis_started] s.

Definition finish (report : string) (s : session) : session :=
  {| session_phase := Completed; tasks := tasks s;
     retry_count := retry_count s; outputs := outputs s;
     synthesis := Some report;
     events := events s ++ [synthesis_complete; session_completed] |}.

Section scheduler.
(** The plan proposed for the session's task, the enabled agent types, the
    bound on concurrent executions, the retry budget, and the synthesis
    call over the recorded outputs. *)
Variable plan : list subtask.
Variable enabled : list string.
Variable max_concurrent : nat.
Variable retry_budget : nat.
Variable synthesize : list (string * string) → string.

(** Modelled from the spec: the Orchestrator of section 4.2, absent from
    the sources.  Tasks of the current group are dispatched while fewer
    than [max_concurrent] are running; a running task completes, is
    retried while its retry budget lasts, or fails; the next group starts
    once every task of the current one is terminal; after the last group
    comes the synthesis; a cancellation fails the session and the tasks in
    flight. *)
Inductive step : session → session → Prop :=
| step_start s :
    session_phase s = Created →
    step s (start s)
| step_decomposed s ts :
    session_phase s = Decomposing →
    build plan enabled = inr ts →
    step s (decomposed ts s)
| step_decomposition_error s e :
    session_phase s = Decomposing →
    build plan enabled = inl e →
    step s (abort s)
| step_dispatch s k t :
    session_phase s = Executing k →
    t ∈ tasks s → execution_group t = k → status t = pending →
    running s < max_concurrent →
    step s (dispatch (id t) s)
| step_skip s k t :
    session_phase s = Executing k →
    t ∈ tasks s → execution_group t = k → status t = pending →
    step s (skip (id t) s)
| step_progress s k t :
    session_phase s = Executing k →
    t ∈ tasks s → status t = in_progress →
    step s (progress (id t) s)
| step_retry s k t :
    session_phase s = Executing k →
    t ∈ tasks s → status t = in_progress →
    retries s (id t) < retry_budget →
    step s (retry (id t) s)
| step_complete s k t output :
    session_phase s = Executing k →
    t ∈ tasks s → status t = in_progress →
    step s (complete (id t) output s)
| step_fail s k t :
    session_phase s = Executing k →
    t ∈ tasks s → status t = in_progress →
    retry_budget ≤ retries s (id t) →
    step s (fail (id t) s)
| step_advance s k :
    session_phase s = Executing k →
    group_done k (tasks s) → ¬ last_group k (tasks s) →
    step s (advance k s)
| step_synthesis s k :
    session_phase s = Executing k →
    group_done k (tasks s) → last_group k (tasks s) →
    step s (synthesizing k s)
| step_finish s :
    session_phase s = Synthesizing →
    step s (finish (synthesize (outputs s)) s)
| step_cancel s k :
    session_phase s = Executing k →
    step s (abort s).

Definition reachable (s : session) : Prop := rtc step initial s.

(** *** One schedule, run to the end *)

(** [exec t n]: the raw output of attempt [n] of task [t], or [None] when
    the attempt fails (model error or timeout). *)
Variable exec : ResearchTask → nat → option string.

Fixpoint attempts (left n : nat) (t : ResearchTask) (s : session) : session :=
  match exec t n with
  | Some output => complete (id t) output s
  | None =>
      match left with
      | O => fail (id t) s
      | S left' => attempts left' (S n) t (retry (id t) s)
      end
  end.

Definition run_task (s : session) (t : ResearchTask) : session :=
  attempts retry_budget 0 t (dispatch (id t) s).

Definition in_group (k : nat) (ts : list ResearchTask) : list ResearchTask :=
  List.filter (λ t, bool_decide (execution_group t = k)) ts.

Definition run_group (k : nat) (s : session) : session :=
  foldl run_task s (in_group k (tasks s)).

Definition max_group (ts : list ResearchTask) : nat :=
  foldr (λ t m, Nat.max (execution_group t) m) 0 ts.

(** Groups [k], [k+1], ... up to [k + n], then the synthesis. *)
Fixpoint run_groups (n k : nat) (s : session) : session :=
  let s' := run_group k s in
  match n with
  | O => synthesizing k s'
  | S n' => run_groups n' (S k) (advance k s')
  end.

Definition run : session :=
  match build plan enabled with
  | inl _ => abort (start initial)
  | inr ts =>
      let s := run_groups (max_group ts) 0 (decomposed ts (start initial)) in
      finish (synthesize (outputs s)) s
  end.

End scheduler.

(** A synthesis call that quotes every output it is given. *)
Definition quoting_synthesis (outs : list (string * string)) : string :=
  "# Synthesis" +:+ String.concat "" (map (λ o, "; " +:+ o.2) outs).

(** *** The barrier, as an invariant *)

(** Groups above [k] have not started, groups below [k] are over. *)
Definition barrier_at (k : nat) (ts : list ResearchTask) : Prop :=
  ∀ t, t ∈ ts →
    (k < execution_group t → status t = pending)
    ∧ (execution_group t < k → terminal (status t)).

Definition barrier_inv (s : session) : Prop :=
  NoDup (map id (tasks s))
  ∧ ∃ k, barrier_at k (tasks s)
         ∧ (∀ k', session_phase s = Executing k' → k' = k).

Definition task1 : ResearchTask :=
  {| id := "t1"; description := "literature search";
     assigned_agent := "explorer"; task_priority := high;
     status := pending; dependencies := [];
     execution_order := 0; execution_group := 0 |}.

Definition task2 : ResearchTask :=
  {| id := "t2"; description := "complexity analysis";
     assigned_agent := "logician"; task_priority := medium;
     status := pending; dependencies := ["t1"];
     execution_order := 0; execution_group := 1 |}.

(** The first group is over and the second has begun. *)
Definition second_group_begun : session :=
  dispatch "t2"
    (advance 0
       (complete "t1" "23 papers"
          (dispatch "t1"
             (decomposed example_tasks (start initial))))).

(** *** What a run leaves behind *)

Section outcomes.
Variable retry_budget : nat.
Variable exec : ResearchTask → nat → option string.

(** The first attempt that succeeds among attempts [n], ..., [n + left]. *)
Fixpoint outcome (left n : nat) (t : ResearchTask) : option string :=
  match exec t n with
  | Some output => Some output
  | None =>
      match left with
      | O => None
      | S left' => outcome left' (S n) t
      end
  end.

Definition result (t : ResearchTask) : option string :=
  outcome retry_budget 0 t.

Definition status_of (o : option string) : task_status :=
  match o with Some _ => completed | None => failed end.

Definition output_of (t : ResearchTask) (o : option string)
  : list (string * string) :=
  match o with Some output => [(id t, output)] | None => [] end.

Definition closing_event (t : ResearchTask) (o : option string) : event :=
  match o with
  | Some _ => task_completed (id t)
  | None => task_failed (id t)
  end.

(** A task at the end of the run. *)
Definition settled (t : ResearchTask) : ResearchTask :=
  with_status (status_of (result t)) t.

Definition task_outputs (l : list ResearchTask) : list (string * string) :=
  concat (map (λ t, output_of t (result t)) l).

Definition task_events (l : list ResearchTask) : list event :=
  concat (map (λ t, [task_started (id t); closing_event t (result t)]) l).

(** [ts] as it stands when the tasks selected by [P] have run. *)
Definition mark (P : ResearchTask → bool) (t : ResearchTask) : ResearchTask :=
  if P t then settled t else t.

Definition below (k : nat) (t : ResearchTask) : bool :=
  execution_group t <? k.

Section over_tasks.
Variable ts : list ResearchTask.

(** The events of groups [k], ..., [k + n], up to the start of the
    synthesis. *)
Fixpoint groups_trace (n k : nat) : list event :=
  task_events (in_group k ts) ++
  match n with
  | O => [group_completed k; synthesis_started]
  | S n' => [group_completed k; group_started (S k)] ++ groups_trace n' (S k)
  end.

Fixpoint groups_outputs (n k : nat) : list (string * string) :=
  task_outputs (in_group k ts) ++
  match n with
  | O => []
  | S n' => groups_outputs n' (S k)
  end.

End over_tasks.

End outcomes.

(** *** Four tasks, one of which fails for good *)

Definition plan4 : list subtask :=
  example_plan ++
  [ {| sub_id := "t4"; sub_description := "history of state space models";
       sub_agent := "historian"; sub_priority := low;
       sub_dependencies := ["t1"] |} ].

Definition agents4 : list string :=
  ["explorer"; "logician"; "critic"; "historian"].


(** The critic fails on the primary and on the fallback model; the
    logician succeeds on the fallback; the others succeed at once. *)
Definition exec4 (t : ResearchTask) (attempt : nat) : option string :=
  if String.eqb (id t) "t3" then None
  else if String.eqb (id t) "t2" then
    match attempt with O => None | S _ => Some "O(n) confirmed" end
  else Some ("notes of " +:+ assigned_agent t).

Definition run4 : session := run plan4 agents4 1 quoting_synthesis exec4.

End Orchestrator.

(** ** The Research page *)

Module AiResearch.

(** *** The task list *)

(** The fields of [ResearchTaskItem] the tab groups by and shows.  The type
    declares [execution_group] a number; the tab reads a task that comes
    without one as group 0 ([task.execution_group || 0]).  Groups are taken
    to be natural numbers, as the backend numbers them. *)
Record ResearchTaskItem : Type := {
  id : string;
  description : string;
  assigned_agent : string;
  execution_group : option nat;
}.

#[global] Instance ResearchTaskItem_eq_dec : EqDecision ResearchTaskItem.
Proof. solve_decision. Defined.

(** [task.execution_group || 0] *)
Definition group_of (task : ResearchTaskItem) : nat :=
  match execution_group task with
  | Some g => g        (* 0 is falsy, and [0 || 0] is 0 *)
  | None => 0
  end.

(** The callback of [tasks.reduce]: [acc] is the object under
    construction, its keys the group numbers. *)
Definition add_task (acc : gmap nat (list ResearchTaskItem))
    (task : ResearchTaskItem) : gmap nat (list ResearchTaskItem) :=
  let group := group_of task in
  let acc :=
    match acc !! group with
    | None => <[group := []]> acc        (* if (!acc[group]) acc[group] = [] *)
    | Some _ => acc
    end in
  <[group := default [] (acc !! group) ++ [task]]> acc.   (* push *)

Definition groupedTasks (tasks : list ResearchTaskItem)
  : gmap nat (list ResearchTaskItem) :=
  foldl add_task ∅ tasks.

(** [entries.sort(([a], [b]) => Number(a) - Number(b))]: a stable sort on
    the numeric value of the key. *)
Fixpoint insert_entry {A} (x : nat * A) (l : list (nat * A))
  : list (nat * A) :=
  match l with
  | [] => [x]
  | y :: l' => if x.1 <=? y.1 then x :: l else y :: insert_entry x l'
  end.

Definition sort_entries {A} (l : list (nat * A)) : list (nat * A) :=
  foldr insert_entry [] l.

(** The stages the tab renders, top to bottom, each with the tasks listed
    under it; the heading of stage [g] shows [g + 1].  With no task the tab
    shows a placeholder and no stage. *)
Definition TasksTab (tasks : list ResearchTaskItem)
  : list (nat * list ResearchTaskItem) :=
  match tasks with
  | [] => []
  | _ :: _ => sort_entries (map_to_list (groupedTasks tasks))
  end.

(** *** A plan to show *)

Definition item (i : string) (agent : string) (g : option nat)
  : ResearchTaskItem :=
  {| id := i; description := "task " +:+ i; assigned_agent := agent;
     execution_group := g |}.

Definition shown : list ResearchTaskItem :=
  [ item "t4" "scribe" (Some 2); item "t1" "explorer" (Some 0);
    item "t3" "critic" (Some 1); item "t2" "logician" None ].

End AiResearch.

(** ** Reading properties of parsed values *)

Module JsValue.
Import Json.

(** [data.k] for a key [k] that no prototype defines ([content], [done],
    [type], [data], ...).  Reading a property of [null] throws a
    [TypeError] (outer [None]); booleans, numbers, strings and arrays have
    no own property of such a name. *)
Definition get (k : string) (data : json) : option value :=
  match data with
  | JNull => None
  | JObj ms => Some (lookup_member k ms)
  | _ => Some None
  end.

(** [v.k] where [v] may be [undefined], which throws as [null] does. *)
Definition get_of (k : string) (v : value) : option value :=
  match v with
  | None => None
  | Some data => get k data
  end.

(** [v === 'literal'] *)
Definition is_string (literal : string) (v : value) : bool :=
  match v with
  | Some (JStr s) => String.eqb s literal
  | _ => false
  end.

End JsValue.

(** ** Running a session from the Research page *)

Module AiResearchPage.
Import Json JsValue.

(** The fields of [ResearchSession] the handler reads. *)
Record ResearchSession : Type := {
  id : string;
  name : string;
  status : string;
}.

Inductive ViewTab : Type :=
  overview | agents | tasks_tab | memory | results.

(** What [setError] is given: the [error] of a stream payload (through
    the [onError] callback), or the message of what the [catch] caught,
    kept as the exception it came from. *)
Inductive failure : Type :=
| StreamPayload (e : value)
| ExecuteFailed (e : ResearchApi.exn)
| GetSessionFailed.

(** The component state the handler touches.  [tasks], [currentProgress]
    and [synthesis] hold whatever the stream carried; [detail_fetches]
    lists the sessions for which [fetchSessionDetails] was started (it is
    not awaited, and what it writes later to [tasks], the executions and
    the memory layers is outside the handler's run). *)
Record page : Type := {
  sessions : list ResearchSession;
  selectedSession : option ResearchSession;
  tasks : json;
  isExecuting : bool;
  executionLogs : list json;
  currentProgress : json;
  synthesis : option json;
  activeTab : ViewTab;
  error : option failure;
  detail_fetches : list string;
}.

Definition setSessions (v : list ResearchSession) (st : page) : page :=
  {| sessions := v; selectedSession := selectedSession st;
     tasks := tasks st; isExecuting := isExecuting st;
     executionLogs := executionLogs st;
     currentProgress := currentProgress st; synthesis := synthesis st;
     activeTab := activeTab st; error := error st;
     detail_fetches := detail_fetches st |}.

Definition setSelectedSession (v : option ResearchSession) (st : page)
  : page :=
  {| sessions := sessions st; selectedSession := v;
     tasks := tasks st; isExecuting := isExecuting st;
     executionLogs := executionLogs st;
     currentProgress := currentProgress st; synthesis := synthesis st;
     activeTab := activeTab st; error := error st;
     detail_fetches := detail_fetches st |}.

Definition setTasks (v : json) (st : page) : page :=
  {| sessions := sessions st; selectedSession := selectedSession st;
     tasks := v; isExecuting := isExecuting st;
     executionLogs := executionLogs st;
     currentProgress := currentProgress st; synthesis := synthesis st;
     activeTab := activeTab st; error := error st;
     detail_fetches := detail_fetches st |}.

Definition setIsExecuting (v : bool) (st : page) : page :=
  {| sessions := sessions st; selectedSession := selectedSession st;
     tasks := tasks st; isExecuting := v;
     executionLogs := executionLogs st;
     currentProgress := currentProgress st; synthesis := synthesis st;
     activeTab := activeTab st; error := error st;
     detail_fetches := detail_fetches st |}.

Definition setExecutionLogs (v : list json) (st : page) : page :=
  {| sessions := sessions st; selectedSession := selectedSession st;
     tasks := tasks st; isExecuting := isExecuting st;
     executionLogs := v;
     currentProgress := currentProgress st; synthesis := synthesis st;
     activeTab := activeTab st; error := error st;
     detail_fetches := detail_fetches st |}.

Definition setCurrentProgress (v : json) (st : page) : page :=
  {| sessions := sessions st; selectedSession := selectedSession st;
     tasks := tasks st; isExecuting := isExecuting st;
     executionLogs := executionLogs st;
     currentProgress := v; synthesis := synthesis st;
     activeTab := activeTab st; error := error st;
     detail_fetches := detail_fetches st |}.

Definition setSynthesis (v : option json) (st : page) : page :=
  {| sessions := sessions st; selectedSession := selectedSession st;
     tasks := tasks st; isExecuting := isExecuting st;
     executionLogs := executionLogs st;
     currentProgress := currentProgress st; synthesis := v;
     activeTab := activeTab st; error := error st;
     detail_fetches := detail_fetches st |}.

Definition setActiveTab (v : ViewTab) (st : page) : page :=
  {| sessions := sessions st; selectedSession := selectedSession st;
     tasks := tasks st; isExecuting := isExecuting st;
     executionLogs := executionLogs st;
     currentProgress := currentProgress st; synthesis := synthesis st;
     activeTab := v; error := error st;
     detail_fetches := detail_fetches st |}.

Definition setError (v : option failure) (st : page) : page :=
  {| sessions := sessions st; selectedSession := selectedSession st;
     tasks := tasks st; isExecuting := isExecuting st;
     executionLogs := executionLogs st;
     currentProgress := currentProgress st; synthesis := synthesis st;
     activeTab := activeTab st; error := v;
     detail_fetches := detail_fetches st |}.

Definition fetchSessionDetails (sessionId : string) (st : page) : page :=
  {| sessions := sessions st; selectedSession := selectedSession st;
     tasks := tasks st; isExecuting := isExecuting st;
     executionLogs := executionLogs st;
     currentProgress := currentProgress st; synthesis := synthesis st;
     activeTab := activeTab st; error := error st;
     detail_fetches := detail_fetches st ++ [sessionId] |}.

(** [if (event.data.k) set(event.data.k)].  [None] when the read throws:
    [event.data] is [undefined] or [null]. *)
Definition with_data (k : string) (event : json)
    (set : json → page → page) (st : page) : option page :=
  data ← get "data" event;
  v ← get_of k data;
  Some match v with
       | Some j => if truthy v then set j st else st
       | None => st
       end.

(** The [onEvent] callback handed to [executeResearch]: the state it
    leaves and whether it throws. *)
Definition onEvent (sel : ResearchSession) (event : json) (st : page)
  : page * bool :=
  let st := setExecutionLogs (executionLogs st ++ [event]) st in
  match get "type" event with
  | None => (st, true)
  | Some type =>
      if is_string "decomposition_complete" type then
        match with_data "tasks" event setTasks st with
        | Some st' => (st', false)
        | None => (st, true)
        end
      else if is_string "task_completed" type
              || is_string "task_failed" type then
        match with_data "progress" event setCurrentProgress st with
        | Some st' => (st', false)
        | None => (st, true)
        end
      else if is_string "synthesis_complete" type then
        match with_data "synthesis" event (λ j, setSynthesis (Some j)) st with
        | Some st' => (setActiveTab results st', false)
        | None => (st, true)
        end
      else if is_string "session_completed" type then
        (fetchSessionDetails (id sel) st, false)
      else (st, false)
  end.

(** The two callbacks as [executeResearch] sees them.  Whether [onEvent]
    throws depends on the event only; [st] is the state it is asked in. *)
Definition subscriber (sel : ResearchSession) (st : page)
  : ResearchApi.callbacks :=
  {| ResearchApi.onEvent_throws := λ event, (onEvent sel event st).2;
     ResearchApi.onError := Some (λ _, false) |}.

(** What one callback invocation does to the state. *)
Definition deliver (sel : ResearchSession) (st : page)
    (c : ResearchApi.call) : page :=
  match c with
  | ResearchApi.OnEvent event => (onEvent sel event st).1
  | ResearchApi.OnError e => setError (Some (StreamPayload e)) st
  end.

(** What the handler cannot decide by itself: the response to [POST
    /research/sessions/{id}/execute] and the session [GET
    /research/sessions/{id}] returns ([None] when that request fails). *)
Record env : Type := {
  execute : string → ResearchApi.response;
  getSession : string → option ResearchSession;
}.

Definition handleExecuteResearch (e : env) (st : page) : page :=
  match selectedSession st with
  | None => st
  | Some sel =>
      if isExecuting st then st
      else
        let st1 :=
          setError None
            (setActiveTab agents
               (setSynthesis None
                  (setCurrentProgress (JNum false 0 0)
                     (setExecutionLogs [] (setIsExecuting true st))))) in
        let '(calls, out) :=
          ResearchApi.executeResearch (subscriber sel st1)
            (execute e (id sel)) [] in
        let st2 := foldl (deliver sel) st1 calls in
        let st3 :=
          match out with
          | ResearchApi.Ok _ =>
              match getSession e (id sel) with
              | Some updatedSession =>
                  setSessions
                    (map (λ s, if String.eqb (id s) (id updatedSession)
                               then updatedSession else s)
                       (sessions st))
                    (setSelectedSession (Some updatedSession) st2)
              | None => setError (Some GetSessionFailed) st2
              end
          | ResearchApi.Throw x => setError (Some (ExecuteFailed x)) st2
          end in
        setIsExecuting false st3
  end.

(** The events of a trace of callbacks, oldest first. *)
Definition events (calls : list ResearchApi.call) : list json :=
  omap (λ c, match c with
             | ResearchApi.OnEvent event => Some event
             | ResearchApi.OnError _ => None
             end) calls.


(** The callbacks a response gives rise to when both are supplied, and
    how reading it ends. *)
Definition stream_calls (r : ResearchApi.response)
  : list ResearchApi.call :=
  if ResearchApi.ok r then
    match ResearchApi.body r with
    | Some (chunks, _) =>
        concat (map (ResearchApi.line_calls ResearchApi.quiet)
                  (concat (map ResearchApi.split chunks)))
    | None => []
    end
  else [].

Definition stream_outcome (r : ResearchApi.response)
  : ResearchApi.outcome unit :=
  if ResearchApi.ok r then
    match ResearchApi.body r with
    | Some (_, ResearchApi.Broken) => ResearchApi.Throw ResearchApi.ReadError
    | _ => ResearchApi.Ok tt
    end
  else ResearchApi.Throw ResearchApi.HttpError.

(** *** A session to run *)

Definition s1 : ResearchSession :=
  {| id := "s1"; name := "Mamba vs Transformer"; status := "active" |}.

Definition idle : page :=
  {| sessions := [s1]; selectedSession := Some s1; tasks := JArr [];
     isExecuting := false; executionLogs := []; currentProgress := JNum false 0 0;
     synthesis := None; activeTab := overview; error := None;
     detail_fetches := [] |}.

Definition backend (chunks : list string) : env :=
  {| execute := λ _, ResearchApi.streamed chunks;
     getSession := λ _, Some {| id := "s1"; name := "Mamba vs Transformer";
                               status := "completed" |} |}.

(** A stream with a progress report, an event without data, an error
    payload and the synthesis. *)
Definition synthesis_body : string :=
  q "data: {'type': 'task_completed', 'data': {'progress': 50}}"
  +:+ ResearchApi.nl
  +:+ q "data: {'type': 'task_failed', 'data': null}" +:+ ResearchApi.nl
  +:+ q "data: {'error': 'agent timeout'}" +:+ ResearchApi.nl
  +:+ q "data: {'type': 'synthesis_complete', 'data': {'synthesis': 'ok'}}"
  +:+ ResearchApi.nl.

End AiResearchPage.

(** ** The other stream consumers of [lib/api.ts] *)

Module StreamApi.
Import Json JsValue.

(** The callbacks a consumer invokes, with their argument. *)
Inductive call : Type :=
| OnChunk (content : value)
| OnDone (section_id : value)
| OnError (error : value).

Inductive exn : Type :=
| SyntaxError                    (* JSON.parse; or thrown by a callback *)
| TypeError                      (* property read on null, call of undefined *)
| StreamError (message : value)  (* new Error(data.error) *)
| HttpError                      (* new Error(error.detail || ...) *)
| ReadError                      (* reader.read() rejects *)
| Other.                         (* anything else a callback throws *)

(** How a statement ends: it falls through, it returns from the function
    (the promise resolves), or it throws. *)
Inductive outcome (A : Type) : Type :=
| Next (a : A)
| Return
| Throw (e : exn).
Arguments Next {A} a.
Arguments Return {A}.
Arguments Throw {A} e.

(** Computations that invoke callbacks (a log of calls, oldest first). *)
Definition S (A : Type) : Type := list call → list call * outcome A.

Definition ret {A} (a : A) : S A := λ tr, (tr, Next a).
Definition throw {A} (e : exn) : S A := λ tr, (tr, Throw e).
Definition return_ {A} : S A := λ tr, (tr, Return).
Definition bind {A B} (m : S A) (k : A → S B) : S B :=
  λ tr, match m tr with
        | (tr', Next a) => k a tr'
        | (tr', Return) => (tr', Return)
        | (tr', Throw e) => (tr', Throw e)
        end.
Definition try_catch {A} (m : S A) (h : exn → S A) : S A :=
  λ tr, match m tr with
        | (tr', Throw e) => h e tr'
        | done => done
        end.
Definition invoke (c : call) : S unit := λ tr, (tr ++ [c], Next tt).
Definition lift {A} (e : exn) (o : option A) : S A :=
  match o with Some a => ret a | None => throw e end.

#[global] Instance S_ret : MRet S := @ret.
#[global] Instance S_bind : MBind S := λ A B k m, bind m k.

(** The callbacks a caller passes.  Each is given by what it throws on an
    argument, if anything; [onDone] and [onError] may be left out. *)
Record callbacks : Type := {
  onChunk : value → option exn;
  onDone : option (value → option exn);
  onError : option (value → option exn);
}.

Definition call_with (c : call) (throws : option exn) : S unit :=
  invoke c ;;
  match throws with Some e => throw e | None => ret tt end.

(** [f?.(v)] and [f(v)]: calling [undefined] throws a [TypeError]. *)
Definition optional_call (f : option (value → option exn))
    (c : value → call) (v : value) : S unit :=
  match f with
  | None => ret tt
  | Some throws => call_with (c v) (throws v)
  end.

Definition required_call (f : option (value → option exn))
    (c : value → call) (v : value) : S unit :=
  match f with
  | None => throw TypeError
  | Some throws => call_with (c v) (throws v)
  end.

(** What the consumers do with a payload that has a truthy [done]:
    [aiWriting] calls nothing, [generateContent] calls
    [onDone?.(data.section_id)], [generateRecommendation] calls
    [onDone?.()]. *)
Inductive done_style : Type := done_silent | done_section | done_plain.

Definition on_done (style : done_style) (cb : callbacks) (data : json)
  : S unit :=
  match style with
  | done_silent => ret tt
  | done_section =>
      match onDone cb with
      | None => ret tt
      | Some throws =>
          section_id ← lift TypeError (get "section_id" data);
          call_with (OnDone section_id) (throws section_id)
      end
  | done_plain => optional_call (onDone cb) OnDone None
  end.

(** The body of the [for (const line of lines)] loop of [aiWriting],
    [generateContent] and [generateRecommendation]: three [if]s in a row,
    and a [catch] that skips a [SyntaxError] and throws anything else
    again. *)
Definition strict_line (style : done_style) (cb : callbacks)
    (line : string) : S unit :=
  if String.prefix "data: " line then
    try_catch
      (data ← lift SyntaxError (JSON_parse (ResearchApi.slice 6 line));
       content ← lift TypeError (get "content" data);
       (if truthy content then call_with (OnChunk content)
                                 (onChunk cb content)
        else ret tt) ;;
       err ← lift TypeError (get "error" data);
       (if truthy err then
          optional_call (onError cb) OnError err ;;
          throw (StreamError err)
        else ret tt) ;;
       done ← lift TypeError (get "done" data);
       if truthy done then on_done style cb data ;; return_
       else ret tt)
      (λ e, match e with SyntaxError => ret tt | _ => throw e end)
  else ret tt.

(** The loop body of [analyzeImage] and [analyzeUploadedImage]: an
    [if ... else if] chain, and a [catch] that ignores everything. *)
Definition lenient_line (cb : callbacks) (line : string) : S unit :=
  if String.prefix "data: " line then
    try_catch
      (data ← lift SyntaxError (JSON_parse (ResearchApi.slice 6 line));
       content ← lift TypeError (get "content" data);
       if truthy content then
         call_with (OnChunk content) (onChunk cb content)
       else
         err ← lift TypeError (get "error" data);
         if truthy err then
           required_call (onError cb) OnError err ;; return_
         else
           done ← lift TypeError (get "done" data);
           if truthy done then
             required_call (onDone cb) OnDone None ;; return_
           else ret tt)
      (λ _, ret tt)
  else ret tt.

Fixpoint for_each {A} (f : A → S unit) (l : list A) : S unit :=
  match l with
  | [] => ret tt
  | x :: l' => f x ;; for_each f l'
  end.

(** The part the five consumers share: the check of the response and the
    read loop, every chunk split into lines by itself. *)
Definition read_stream (handle_line : string → S unit)
    (r : ResearchApi.response) : S unit :=
  if negb (ResearchApi.ok r) then throw HttpError
  else match ResearchApi.body r with
       | None => ret tt
       | Some (chunks, fin) =>
           for_each (λ chunk, for_each handle_line (ResearchApi.split chunk))
             chunks ;;
           match fin with
           | ResearchApi.Done => ret tt
           | ResearchApi.Broken => throw ReadError
           end
       end.

Definition aiWriting (cb : callbacks) : ResearchApi.response → S unit :=
  read_stream (strict_line done_silent cb).
Definition generateContent (cb : callbacks)
  : ResearchApi.response → S unit :=
  read_stream (strict_line done_section cb).
Definition generateRecommendation (cb : callbacks)
  : ResearchApi.response → S unit :=
  read_stream (strict_line done_plain cb).
Definition analyzeImage (cb : callbacks) : ResearchApi.response → S unit :=
  read_stream (lenient_line cb).
Definition analyzeUploadedImage (cb : callbacks)
  : ResearchApi.response → S unit :=
  read_stream (lenient_line cb).

(** What the callback invoked by a call threw, if anything. *)
Definition thrown (cb : callbacks) (c : call) : option exn :=
  match c with
  | OnChunk v => onChunk cb v
  | OnDone v => match onDone cb with Some f => f v | None => None end
  | OnError v => match onError cb with Some f => f v | None => None end
  end.

(** [onDone] and [onError] tell the caller that the stream is over. *)
Definition terminal (c : call) : bool :=
  match c with OnChunk _ => false | _ => true end.

(** A computation only adds calls to the log it is given, and what it
    adds does not depend on that log. *)
Definition appends {A} (m : S A) : Prop :=
  ∀ tr, m tr = (tr ++ (m []).1, (m []).2).

(** A terminal call that took effect.  In the strict consumers a callback
    that throws a [SyntaxError] is skipped by the [catch] like a line that
    does not parse; in the lenient ones whatever a callback throws is
    ignored. *)
Definition settles_strict (cb : callbacks) (c : call) : bool :=
  terminal c
  && match thrown cb c with Some SyntaxError => false | _ => true end.

Definition settles_lenient (cb : callbacks) (c : call) : bool :=
  terminal c
  && match thrown cb c with None => true | Some _ => false end.

Definition is_error (c : call) : bool :=
  match c with OnError _ => true | _ => false end.

(** A log and an outcome in which a call that settles is the last call
    and ends the stream; [after c out] says how. *)
Definition ends_stream (settles : call → bool)
    (after : call → outcome unit → Prop)
    (run : list call * outcome unit) : Prop :=
  ∀ i c, run.1 !! i = Some c → settles c = true →
    Datatypes.S i = length run.1 ∧ run.2 ≠ Next tt ∧ after c run.2.

(** After [onError] a strict consumer throws; after [onDone] it returns or
    throws what [onDone] threw. *)
Definition after_strict (c : call) (out : outcome unit) : Prop :=
  is_error c = true → ∃ e, out = Throw e.

(** After either a lenient consumer returns. *)
Definition after_lenient (c : call) (out : outcome unit) : Prop :=
  out = Return.

(** *** A caller and two streams *)

(** A caller that passes the three callbacks, none of which throws. *)
Definition calm : callbacks :=
  {| onChunk := λ _, None; onDone := Some (λ _, None);
     onError := Some (λ _, None) |}.

(** A caller all of whose callbacks throw. *)
Definition rude : callbacks :=
  {| onChunk := λ _, Some Other; onDone := Some (λ _, Some Other);
     onError := Some (λ _, Some TypeError) |}.

Definition chunk_hello : string :=
  q "data: {'content': 'Hel'}" +:+ ResearchApi.nl
  +:+ q "data: {'content': 'lo'}" +:+ ResearchApi.nl.

Definition chunk_done : string :=
  q "data: {'done': true, 'section_id': 's7'}" +:+ ResearchApi.nl.

Definition chunk_error : string :=
  q "data: {'error': 'model overloaded'}" +:+ ResearchApi.nl.

End StreamApi.

(** ** The agent list of the Research Team page *)

Module AiTeamsList.
Import AiTeams.

(** [AgentCluster]; the keys of [CLUSTER_CONFIG], in the order in which
    the object literal lists them. *)
Inductive AgentCluster : Type :=
  reasoning | information | production | coordination.

#[global] Instance AgentCluster_eq_dec : EqDecision AgentCluster.
Proof. solve_decision. Defined.

Definition CLUSTER_CONFIG_keys : list AgentCluster :=
  [reasoning; information; production; coordination].

(** A profile with the one more field the list reads. *)
Record listed : Type := {
  profile :> AgentProfile;
  cluster : AgentCluster;
}.

(** [selectedCluster]: a cluster, ['all'] or ['custom']. *)
Inductive cluster_filter : Type :=
| all
| custom
| only (c : AgentCluster).

Definition filteredProfiles (selectedCluster : cluster_filter)
    (profiles : list listed) : list listed :=
  List.filter
    (λ p : listed,
       match selectedCluster with
       | all => true
       | custom => is_custom p
       | only c => bool_decide (cluster p = c)
       end)
    profiles.

(** The callback of [filteredProfiles.reduce]; [acc] is a
    [Record<AgentCluster, AgentProfile[]>], [None] where the object has no
    such key yet. *)
Definition add_profile (acc : AgentCluster → option (list listed))
    (profile : listed) : AgentCluster → option (list listed) :=
  let acc :=
    match acc (cluster profile) with
    | None => λ c, if decide (c = cluster profile) then Some [] else acc c
    | Some _ => acc
    end in
  λ c, if decide (c = cluster profile)
       then Some (default [] (acc c) ++ [profile])
       else acc c.

Definition groupedProfiles (filtered : list listed)
  : AgentCluster → option (list listed) :=
  foldl add_profile (λ _, None) filtered.

(** What the list shows, top to bottom: sections of cards, under the
    heading of a cluster in the grouped view. *)
Definition agent_list (selectedCluster : cluster_filter)
    (profiles : list listed) : list (option AgentCluster * list listed) :=
  let filtered := filteredProfiles selectedCluster profiles in
  match selectedCluster with
  | all =>
      omap (λ c, match default [] (groupedProfiles filtered c) with
                 | [] => None        (* return null *)
                 | clusterProfiles => Some (Some c, clusterProfiles)
                 end)
        CLUSTER_CONFIG_keys
  | _ => [(None, filtered)]
  end.

(** *** A team to list *)

Definition critic : listed :=
  {| profile := {| id := "p-critic"; display_name := "Critic";
                   is_custom := false |};
     cluster := reasoning |}.

Definition scout : listed :=
  {| profile := explorer; cluster := information |}.

Definition my_scout : listed :=
  {| profile := my_agent; cluster := information |}.

Definition roster : list listed := [my_scout; critic; scout].

End AiTeamsList.

(** ** The request helpers of [lib/api.ts] *)

Module FetchApi.
Import Json JsValue.

(** A response as [fetch] resolves it: the status and the text of the
    body.  [response.ok] holds for the statuses 200 to 299. *)
Record reply : Type := {
  status : nat;
  text : string;
}.

Definition ok (r : reply) : bool :=
  (200 <=? status r) && (status r <=? 299).

(** What the helpers throw.  The message of [new Error(m)] is [m]
    converted to a string; a string is its own conversion. *)
Inductive exn : Type :=
| Error (message : json)
| SyntaxError        (* response.json() on a body that is not JSON *)
| TypeError.         (* error.detail where error is null *)

Inductive outcome (A : Type) : Type :=
| Ok (a : A)
| Throw (e : exn).
Arguments Ok {A} a.
Arguments Throw {A} e.

(** [response.json()] *)
Definition json_of (r : reply) : option json := JSON_parse (text r).

(** The branch [if (!response.ok)]: what is thrown. *)
Definition request_failed (fallback : string) (r : reply) : exn :=
  (* await response.json().catch(() => ({ detail: fallback })) *)
  let error := default (JObj [("detail", JStr fallback)]) (json_of r) in
  match get "detail" error with
  | None => TypeError
  | Some detail =>
      (* new Error(error.detail || fallback) *)
      match detail with
      | Some m => if truthy detail then Error m else Error (JStr fallback)
      | None => Error (JStr fallback)
      end
  end.

Definition fetchApi (r : reply) : outcome value :=
  if negb (ok r) then Throw (request_failed "Request failed" r)
  else match json_of r with
       | Some v => Ok (Some v)
       | None => Throw SyntaxError
       end.

(** [None] in the result is [undefined], returned for 204 No Content. *)
Definition fetchApiWithAuth (r : reply) : outcome value :=
  if negb (ok r) then Throw (request_failed "Request failed" r)
  else if status r =? 204 then Ok None
  else match json_of r with
       | Some v => Ok (Some v)
       | None => Throw SyntaxError
       end.

End FetchApi.

(** ** Deleting a profile over HTTP *)

Module AiTeamsBackend.
Import Json FetchApi AiTeams.

(** [err instanceof Error ? err.message : 'Failed to delete agent'].
    Everything the helper throws is an [Error]; [engine] gives the
    messages this development does not spell out: those of the platform's
    [SyntaxError] and [TypeError], and the conversion to a string of a
    [detail] that is not a string. *)
Definition message_of (engine : exn → string) (e : exn) : string :=
  match e with
  | Error (JStr s) => s
  | _ => engine e
  end.

(** [agentApi.deleteProfile] against a server that answers [DELETE
    /agents/profiles/{id}] with [server id]. *)
Definition deleteProfile (engine : exn → string) (server : string → reply)
    (id : string) : api_result :=
  match fetchApiWithAuth (server id) with
  | Ok _ => Deleted
  | Throw e => Rejected (message_of engine e)
  end.

Definition over (engine : exn → string) (server : string → reply)
    (confirm : AgentProfile → bool) : env :=
  {| AiTeams.confirm := confirm;
     AiTeams.deleteProfile := deleteProfile engine server |}.

(** *** A server that refuses, in the standard error format *)

Definition forbidden : reply :=
  {| status := 403; text := q "{'detail': 'Cannot delete default agents'}" |}.

Definition plain_engine (e : exn) : string :=
  match e with
  | SyntaxError => "Unexpected end of JSON input"
  | TypeError => "Cannot read properties of null"
  | Error _ => "[object Object]"
  end.

End AiTeamsBackend.

(** * Properties *)

(** ** The SSE consumer *)

Module ResearchApiFacts.
Import Json ResearchApi.

(** A line never makes the loop throw, whatever the callbacks do, and the
    callbacks it invokes are those of [line_calls]. *)
Lemma handle_line_run (cb : callbacks) (line : string) (tr : list call) :
  handle_line cb line tr = (tr ++ line_calls cb line, Ok tt).
Proof.
  unfold handle_line, line_calls.
  destruct (String.prefix "data: " line);
    [| unfold ret; by rewrite app_nil_r].
  generalize (JSON_parse (slice 6 line)). intros [data|];
    cbv [try_catch mbind M_bind bind lift ret throw invoke
         call_onError call_onEvent];
    [| by rewrite app_nil_r].
  destruct data; simpl; rewrite ?app_nil_r; try reflexivity;
    try (destruct (onEvent_throws cb _); reflexivity).
  destruct (truthy (lookup_member "error" members)).
  - destruct (onError cb) as [throws|]; rewrite ?app_nil_r;
      [destruct (throws _)|]; reflexivity.
  - destruct (onEvent_throws cb _); reflexivity.
Qed.

Lemma for_each_lines_run (cb : callbacks) (lines : list string)
    (tr : list call) :
  for_each (handle_line cb) lines tr
  = (tr ++ concat (map (line_calls cb) lines), Ok tt).
Proof.
  revert tr. induction lines as [|l lines IH]; intros tr; simpl.
  - by rewrite app_nil_r.
  - unfold mbind, M_bind, bind. rewrite handle_line_run, IH.
    by rewrite app_assoc.
Qed.

Lemma for_each_chunks_run (cb : callbacks) (chunks : list string)
    (tr : list call) :
  for_each (handle_chunk cb) chunks tr
  = (tr ++ concat (map (line_calls cb) (concat (map split chunks))), Ok tt).
Proof.
  revert tr. induction chunks as [|c chunks IH]; intros tr; simpl.
  - by rewrite app_nil_r.
  - unfold mbind, M_bind, bind, handle_chunk.
    rewrite for_each_lines_run, IH, map_app, concat_app.
    by rewrite app_assoc.
Qed.

Example chunks_are_the_body : first_chunk +:+ second_chunk = whole_body.
Proof. reflexivity. Qed.

Example split_example :
  split ("a" +:+ nl +:+ "b" +:+ nl) = ["a"; "b"; ""].
Proof. reflexivity. Qed.

Example parse_event_example :
  JSON_parse (q "{'type': 'group_started', 'data': {'group': 0, 'tasks': 3}}")
  = Some (JObj [("type", JStr "group_started");
                ("data", JObj [("group", JNum false 0 0);
                               ("tasks", JNum false 3 0)])]).
Proof. vm_compute. reflexivity. Qed.

Example error_line_example :
  line_calls quiet (q "data: {'type': 'error', 'error': 'boom'}")
  = [OnError (Some (JStr "boom"))].
Proof. vm_compute. reflexivity. Qed.

Example falsy_error_line_example :
  line_calls quiet (q "data: {'type': 'error', 'error': 1e-400}")
  = [OnEvent (JObj [("type", JStr "error");
                    ("error", JNum false 1 (-400))])].
Proof. vm_compute. reflexivity. Qed.

Example comment_line_example :
  line_calls quiet (q ": keep-alive") = []
  ∧ line_calls quiet (q "data:{'type': 'error'}") = []
  ∧ line_calls quiet (q "data: {'type': 'error'") = [].
Proof. vm_compute. auto. Qed.

(** C10, as amended.  On an ok response whose body ends normally,
    [executeResearch] returns without throwing, whatever the callbacks do,
    and the callbacks it has invoked are, in stream order, those of the
    lines of each chunk: none for a line that does not begin with
    [data: ], none for a payload that fails to parse, none for the payload
    [null], [onError] once (when it is supplied) for a payload whose
    [error] is truthy, and [onEvent] once for every other payload. *)
Theorem executeResearch_callbacks (cb : callbacks) (chunks : list string)
    (tr : list call) :
  executeResearch cb (streamed chunks) tr
  = (tr ++ concat (map (line_calls cb) (concat (map split chunks))), Ok tt).
Proof.
  unfold executeResearch, streamed; simpl.
  unfold mbind, M_bind, bind. by rewrite for_each_chunks_run.
Qed.

(** The other ways out: a response that is not ok throws before any
    callback; a body stream that breaks throws after the callbacks of the
    chunks read so far. *)
Lemma executeResearch_throws (cb : callbacks) (chunks : list string)
    (b : option (list string * stream_end)) (tr : list call) :
  executeResearch cb {| ok := false; body := b |} tr = (tr, Throw HttpError)
  ∧ executeResearch cb {| ok := true; body := Some (chunks, Broken) |} tr
    = (tr ++ concat (map (line_calls cb) (concat (map split chunks))),
       Throw ReadError).
Proof.
  split; [reflexivity|]. unfold executeResearch; simpl.
  unfold mbind, M_bind, bind. by rewrite for_each_chunks_run.
Qed.

Lemma split_nonempty (s : string) : split s ≠ [].
Proof.
  destruct s as [|c r]; simpl; [done|].
  destruct (Ascii.eqb c newline); [done|]. by destruct (split r).
Qed.

(** Cutting a text right after a line feed cuts no line. *)
Lemma split_app_newline (a b : string) :
  split (a +:+ nl +:+ b) = split a ++ split b.
Proof.
  induction a as [|c r IH]; [reflexivity|].
  change (String c r +:+ nl +:+ b) with (String c (r +:+ nl +:+ b)).
  cbn [split]. rewrite IH. destruct (Ascii.eqb c newline); [done|].
  pose proof (split_nonempty r). by destruct (split r).
Qed.

Lemma split_snoc_newline (a : string) : split (a +:+ nl) = split a ++ [""].
Proof. apply (split_app_newline a ""). Qed.

Lemma app_string_assoc (a b c : string) :
  (a +:+ b) +:+ c = a +:+ b +:+ c.
Proof.
  induction a as [|x a IH]; [reflexivity|].
  change (String x ((a +:+ b) +:+ c) = String x (a +:+ b +:+ c)).
  by rewrite IH.
Qed.

(** Chunks that each end with a line feed deliver what the whole body
    read as one chunk delivers. *)
Lemma aligned_chunks_deliver_all (cb : callbacks) (chunks : list string)
    (tr : list call) :
  Forall (λ chunk, ∃ a, chunk = a +:+ nl) chunks →
  executeResearch cb (streamed chunks) tr
  = executeResearch cb (streamed [String.concat "" chunks]) tr.
Proof.
  intros Haligned. unfold executeResearch, streamed. cbn [ok body negb].
  unfold mbind, M_bind, bind. rewrite !for_each_chunks_run.
  f_equal. f_equal. cbn [map concat]. rewrite app_nil_r.
  induction Haligned as [|chunk chunks [a ->] _ IH]; [reflexivity|].
  cbn [map concat]. rewrite map_app, concat_app, IH.
  destruct chunks as [|c' chunks'].
  - cbn [String.concat]. change (split "") with [""].
    cbn [map concat]. change (line_calls cb "") with (@nil call).
    by rewrite !app_nil_r.
  - change (String.concat "" ((a +:+ nl) :: c' :: chunks'))
      with ((a +:+ nl) +:+ "" +:+ String.concat "" (c' :: chunks')).
    change ("" +:+ String.concat "" (c' :: chunks'))
      with (String.concat "" (c' :: chunks')).
    rewrite app_string_assoc, split_app_newline, split_snoc_newline.
    rewrite !map_app, !concat_app. cbn [map concat].
    change (line_calls cb "") with (@nil call).
    by rewrite !app_nil_r.
Qed.

(** C10, counterexample.  The payload [null] parses and has no truthy
    [error], so the stated property sends it to [onEvent]; the code reads
    [data.error] of [null], which throws, and the [catch] drops the
    line. *)
Lemma null_payload_is_dropped :
  JSON_parse (slice 6 "data: null") = Some JNull
  ∧ line_calls_claimed quiet "data: null" = [OnEvent JNull]
  ∧ handle_line quiet "data: null" [] = ([], Ok tt).
Proof. vm_compute. auto. Qed.

(** C4.  The body of [whole_body] read as one chunk delivers the three
    events; the same bytes read as [first_chunk] then [second_chunk]
    deliver [task_started] and [session_completed] only: the two halves of
    the [task_completed] line are parsed apart and both dropped. *)
Theorem split_line_loses_event :
  (map event_type (executeResearch quiet (streamed [whole_body]) []).1
   = [Some "task_started"; Some "task_completed"; Some "session_completed"])
  ∧ (map event_type
       (executeResearch quiet (streamed [first_chunk; second_chunk]) []).1
     = [Some "task_started"; Some "session_completed"])
  ∧ (executeResearch quiet (streamed [first_chunk; second_chunk]) []).2
    = Ok tt.
Proof. vm_compute. auto. Qed.

(** *** Chunk by chunk *)

Lemma aligned_chunks_deliver_all_witness :
  Forall (λ chunk, ∃ a, chunk = a +:+ nl)
    [ev_started +:+ nl; ev_session_completed +:+ nl]
  ∧ executeResearch quiet
      (streamed [ev_started +:+ nl; ev_session_completed +:+ nl]) []
    = executeResearch quiet
        (streamed [String.concat ""
                     [ev_started +:+ nl; ev_session_completed +:+ nl]]) [].
Proof.
  assert (Forall (λ chunk, ∃ a, chunk = a +:+ nl)
            [ev_started +:+ nl; ev_session_completed +:+ nl]) as Haligned
    by (repeat constructor; eexists; reflexivity).
  split; [exact Haligned|].
  exact (aligned_chunks_deliver_all quiet _ [] Haligned).
Defined.

(** The consumer keeps nothing from one chunk to the next: reading
    [chunks ++ more] is reading [chunks] and then, from where that left
    the callbacks, [more].  What has been delivered for the first chunks
    does not depend on what follows. *)
Theorem executeResearch_chunk_by_chunk (cb : callbacks)
    (chunks more : list string) (tr : list call) :
  executeResearch cb (streamed (chunks ++ more)) tr
  = executeResearch cb (streamed more)
      (executeResearch cb (streamed chunks) tr).1.
Proof.
  unfold executeResearch, streamed. cbn [ok body negb].
  unfold mbind, M_bind, bind. rewrite !for_each_chunks_run.
  unfold ret. cbn [fst].
  by rewrite map_app, concat_app, map_app, concat_app, app_assoc.
Qed.

End ResearchApiFacts.

(** ** Deleting an agent profile *)

Module AiTeamsFacts.
Import AiTeams.

Example delete_custom_example :
  handleDeleteProfile willing my_agent team
  = {| profiles := [explorer]; selectedProfile := Some explorer;
       error := None; requests := ["p-custom"] |}.
Proof. reflexivity. Qed.

Example delete_declined_example :
  handleDeleteProfile
    {| confirm := λ _, false; deleteProfile := λ _, Deleted |} my_agent team
  = team.
Proof. reflexivity. Qed.

Example delete_refused_by_backend_example :
  handleDeleteProfile
    {| confirm := λ _, true;
       deleteProfile := λ _, Rejected "Agent profile not found" |}
    my_agent team
  = {| profiles := [my_agent; explorer]; selectedProfile := Some explorer;
       error := Some "Agent profile not found";
       requests := ["p-custom"] |}.
Proof. reflexivity. Qed.

(** C9.  Deleting a profile that is not custom is rejected: the handler
    reports [Cannot delete default agents], sends no request, and leaves
    the profile list and the selection as they were, whatever the user and
    the backend would have answered.  So a delete goes through only for a
    custom profile. *)
Theorem delete_default_rejected (e : env) (profile : AgentProfile)
    (st : page) :
  is_custom profile = false →
  let st' := handleDeleteProfile e profile st in
  profiles st' = profiles st
  ∧ selectedProfile st' = selectedProfile st
  ∧ requests st' = requests st
  ∧ error st' = Some "Cannot delete default agents".
Proof.
  intros Hdefault. unfold handleDeleteProfile.
  rewrite Hdefault. simpl. auto.
Qed.

Lemma delete_default_rejected_witness :
  is_custom explorer = false
  ∧ let st' := handleDeleteProfile willing explorer team in
    profiles st' = profiles team
    ∧ selectedProfile st' = selectedProfile team
    ∧ requests st' = requests team
    ∧ error st' = Some "Cannot delete default agents".
Proof.
  split; [reflexivity|].
  apply (delete_default_rejected willing explorer team). reflexivity.
Defined.

(** The converse reading: a request is sent, or a profile leaves the list,
    only for a custom profile. *)
Lemma delete_sent_only_if_custom (e : env) (profile : AgentProfile)
    (st : page) :
  requests (handleDeleteProfile e profile st) ≠ requests st
  ∨ profiles (handleDeleteProfile e profile st) ≠ profiles st →
  is_custom profile = true.
Proof.
  unfold handleDeleteProfile.
  destruct (is_custom profile); [done|]. simpl. intros [H|H]; congruence.
Qed.

(** *** A delete that goes through *)

(** When the profile is custom, the user confirms and the backend deletes,
    one request is sent and the list loses every profile with that id and
    nothing else, the others keeping their order; a selection with that id
    is cleared, any other selection is kept; no error is reported. *)
Theorem delete_custom_removes (e : env) (profile : AgentProfile)
    (st : page) :
  is_custom profile = true →
  confirm e profile = true →
  deleteProfile e (id profile) = Deleted →
  let st' := handleDeleteProfile e profile st in
  (id profile ∉ map id (profiles st'))
  ∧ (∀ p, id p ≠ id profile → (p ∈ profiles st' ↔ p ∈ profiles st))
  ∧ profiles st' `sublist_of` profiles st
  ∧ (∀ sel, selectedProfile st' = Some sel ↔
            selectedProfile st = Some sel ∧ id sel ≠ id profile)
  ∧ requests st' = requests st ++ [id profile]
  ∧ error st' = error st.
Proof.
  intros Hcustom Hconfirm Hdeleted. unfold handleDeleteProfile.
  rewrite Hcustom, Hconfirm, Hdeleted. cbn [negb profiles selectedProfile
    requests error].
  split; [|split; [|split; [|split; [|split]]]]; try reflexivity.
  - intros Hin. apply list_elem_of_fmap in Hin as (p & Hid & Hp).
    apply list_elem_of_filter in Hp as [Hne _]. congruence.
  - intros p Hne. rewrite list_elem_of_filter. tauto.
  - apply sublist_filter.
  - intros sel. destruct (selectedProfile st) as [s|]; [|split; [done|]].
    + destruct (String.eqb (id s) (id profile)) eqn:Heq.
      * apply String.eqb_eq in Heq. split; [done|].
        intros [[= ->] Hne]. done.
      * apply String.eqb_neq in Heq. split.
        -- intros [= ->]. done.
        -- intros [[= ->] _]. done.
    + intros [[=] _].
Qed.

Lemma delete_custom_removes_witness :
  is_custom my_agent = true
  ∧ confirm willing my_agent = true
  ∧ deleteProfile willing (id my_agent) = Deleted
  ∧ let st' := handleDeleteProfile willing my_agent team in
    (id my_agent ∉ map id (profiles st'))
    ∧ (∀ p, id p ≠ id my_agent → (p ∈ profiles st' ↔ p ∈ profiles team))
    ∧ profiles st' `sublist_of` profiles team
    ∧ (∀ sel, selectedProfile st' = Some sel ↔
              selectedProfile team = Some sel ∧ id sel ≠ id my_agent)
    ∧ requests st' = requests team ++ [id my_agent]
    ∧ error st' = error team.
Proof.
  split; [reflexivity|]. split; [reflexivity|]. split; [reflexivity|].
  apply (delete_custom_removes willing my_agent team); reflexivity.
Defined.

(** Whatever the user and the backend answer, the handler never leaves a
    profile selected whose id is no longer in the list, if none was before. *)
Theorem delete_keeps_selection_listed (e : env) (profile : AgentProfile)
    (st : page) :
  (∀ sel, selectedProfile st = Some sel → id sel ∈ map id (profiles st)) →
  ∀ sel, selectedProfile (handleDeleteProfile e profile st) = Some sel →
         id sel ∈ map id (profiles (handleDeleteProfile e profile st)).
Proof.
  intros Hlisted sel. unfold handleDeleteProfile.
  destruct (is_custom profile); cbn [negb]; [|apply Hlisted].
  destruct (confirm e profile); cbn [negb]; [|apply Hlisted].
  destruct (deleteProfile e (id profile)); cbn [profiles selectedProfile];
    [|apply Hlisted].
  destruct (selectedProfile st) as [s|] eqn:Hsel; [|done].
  destruct (String.eqb (id s) (id profile)) eqn:Heq; [done|].
  intros [= <-]. apply String.eqb_neq in Heq.
  specialize (Hlisted s eq_refl).
  apply list_elem_of_fmap in Hlisted as (p & Hid & Hp).
  apply list_elem_of_fmap. exists p. split; [done|].
  apply list_elem_of_filter. split; [congruence|done].
Qed.

Lemma delete_keeps_selection_listed_witness :
  (∀ sel, selectedProfile team = Some sel → id sel ∈ map id (profiles team))
  ∧ ∀ sel, selectedProfile (handleDeleteProfile willing my_agent team)
           = Some sel →
      id sel ∈ map id (profiles (handleDeleteProfile willing my_agent team)).
Proof.
  assert (∀ sel, selectedProfile team = Some sel →
                 id sel ∈ map id (profiles team)) as Hlisted.
  { intros sel [= <-]. simpl. set_solver. }
  split; [exact Hlisted|].
  exact (delete_keeps_selection_listed willing my_agent team Hlisted).
Defined.

End AiTeamsFacts.

(** ** Retrieval under a token budget *)

Module MemoryFacts.
Import Memory.

Section retrieve_facts.
Context `{R : Retriever}.

Lemma spent_nonneg (digests : list string) : (0 ≤ spent digests)%Z.
Proof. induction digests; simpl; lia. Qed.

Lemma spent_snoc (digests : list string) (d : string) :
  spent (digests ++ [d]) = (spent digests + Z.of_nat (count_tokens d))%Z.
Proof. induction digests; simpl; lia. Qed.

(** The loop keeps a prefix of the ranked digests: the longest one before
    which at least 1000 tokens were left at every step. *)
Lemma add_digests_spec (digests : list string) :
  ∀ (budget : Z) (res : list entry),
  ∃ n : nat,
    n ≤ length digests
    ∧ add_digests budget digests res
      = (res ++ map L1_digest (take n digests),
         (budget - spent (take n digests))%Z)
    ∧ (∀ i, i < n → (1000 ≤ budget - spent (take i digests))%Z)
    ∧ (n < length digests → (budget - spent (take n digests) < 1000)%Z).
Proof.
  induction digests as [|d ds IH]; intros budget res.
  - exists 0. simpl. rewrite app_nil_r, Z.sub_0_r.
    repeat split; lia.
  - simpl. destruct (budget <? 1000)%Z eqn:Hlt.
    + exists 0. simpl. rewrite app_nil_r, Z.sub_0_r.
      apply Z.ltb_lt in Hlt. repeat split; lia.
    + apply Z.ltb_ge in Hlt.
      destruct (IH (budget - Z.of_nat (count_tokens d))%Z
                   (res ++ [L1_digest d])) as (n & Hn & Heq & Hall & Hstop).
      exists (S n). simpl. rewrite Heq, <- app_assoc. simpl.
      repeat split.
      * lia.
      * f_equal. lia.
      * intros [|i] Hi; simpl; [lia|].
        specialize (Hall i ltac:(lia)). lia.
      * intros Hlen. specialize (Hstop ltac:(lia)). lia.
Qed.

(** With more budget the loop keeps at least the same digests and spends
    at least as much. *)
Lemma add_digests_mono (digests : list string) :
  ∀ (b1 b2 : Z) (res : list entry),
  (b1 ≤ b2)%Z →
  ∃ more : list string,
    (add_digests b2 digests res).1
    = (add_digests b1 digests res).1 ++ map L1_digest more
    ∧ (b1 - (add_digests b1 digests res).2
       ≤ b2 - (add_digests b2 digests res).2)%Z.
Proof.
  induction digests as [|d ds IH]; intros b1 b2 res Hle; simpl.
  - exists []. simpl. rewrite app_nil_r. split; [done|lia].
  - destruct (b1 <? 1000)%Z eqn:H1; destruct (b2 <? 1000)%Z eqn:H2; simpl.
    + exists []. simpl. rewrite app_nil_r. split; [done|lia].
    + destruct (add_digests_spec ds (b2 - Z.of_nat (count_tokens d))%Z
                  (res ++ [L1_digest d])) as (n & _ & Heq & _ & _).
      rewrite Heq. simpl. exists (d :: take n ds). simpl.
      rewrite <- app_assoc. split; [done|].
      pose proof (spent_nonneg (take n ds)). lia.
    + apply Z.ltb_ge in H1. apply Z.ltb_lt in H2. lia.
    + assert (b1 - Z.of_nat (count_tokens d)
              ≤ b2 - Z.of_nat (count_tokens d))%Z as Hle' by lia.
      destruct (IH _ _ (res ++ [L1_digest d]) Hle') as (more & Heq & Hsp).
      exists more. split; [done|lia].
Qed.

Lemma texts_retrieve_context (query agent : string) (B : Z) :
  texts (retrieve_context query agent B)
  = (add_digests (B - Z.of_nat (count_tokens (load_insights always_loaded)))
       (search_digests query agent 3)
       [L2_insights (load_insights always_loaded)]).1.
Proof.
  unfold texts, retrieve_context, always_loaded. simpl.
  destruct (add_digests_spec (search_digests query agent 3)
              (B - Z.of_nat (count_tokens
                     (load_insights ["key_findings.md"; "open_questions.md"])))
              [L2_insights
                 (load_insights ["key_findings.md"; "open_questions.md"])])
    as (n & _ & Heq & _ & _).
  rewrite Heq. simpl.
  assert (∀ l : list string,
            List.filter (λ e, negb (is_ref e)) (map L1_digest l)
            = map L1_digest l) as Hkeep.
  { induction l as [|x l IHl]; simpl; [done|by rewrite IHl]. }
  destruct (500 <? _)%Z; simpl; [rewrite List.filter_app; simpl|];
    rewrite Hkeep, ?app_nil_r; reflexivity.
Qed.

(** C2, as amended.  The bundle is, in this order: one L2 entry holding
    the two always-loaded insight files [key_findings.md] and
    [open_questions.md], whole, whatever the budget; then the first [n] of
    the at most three digests that [search_digests] returns for the query
    with the requesting agent excluded, each added while at least 1000
    tokens were left, the loop stopping at the first digest for which
    fewer are left; then one list of at most three raw-file references, as
    [search_raw] returns them, exactly when more than 500 tokens are left
    after the digests. *)
Theorem retrieve_context_bundle (query agent : string) (B : Z) :
  let ins := load_insights always_loaded in
  let ranked := search_digests query agent 3 in
  ∃ n : nat,
    let left := (B - Z.of_nat (count_tokens ins) - spent (take n ranked))%Z in
    n ≤ length ranked
    ∧ results (retrieve_context query agent B)
      = [L2_insights ins] ++ map L1_digest (take n ranked)
        ++ (if (500 <? left)%Z then [L0_refs (search_raw query 3)] else [])
    ∧ token_count (retrieve_context query agent B) = (B - left)%Z
    ∧ (∀ i, i < n →
         (1000 ≤ B - Z.of_nat (count_tokens ins) - spent (take i ranked))%Z)
    ∧ (n < length ranked → (left < 1000)%Z).
Proof.
  intros ins ranked.
  destruct (add_digests_spec ranked (B - Z.of_nat (count_tokens ins))%Z
              [L2_insights ins]) as (n & Hn & Heq & Hall & Hstop).
  exists n. unfold retrieve_context. fold always_loaded. fold ins.
  fold ranked. simpl. rewrite Heq.
  repeat split; try assumption.
  destruct (500 <? _)%Z; simpl; rewrite ?app_nil_r; reflexivity.
Qed.

(** C3, as amended.  With a smaller budget the L2 and L1 part of the
    bundle is a prefix of the one a larger budget returns, and the token
    count is no larger. *)
Theorem retrieve_context_monotone (query agent : string) (B1 B2 : Z) :
  (B1 ≤ B2)%Z →
  texts (retrieve_context query agent B1)
    `prefix_of` texts (retrieve_context query agent B2)
  ∧ (token_count (retrieve_context query agent B1)
     ≤ token_count (retrieve_context query agent B2))%Z.
Proof.
  intros Hle. rewrite !texts_retrieve_context.
  set (c := Z.of_nat (count_tokens (load_insights always_loaded))).
  assert (B1 - c ≤ B2 - c)%Z as Hle' by lia.
  destruct (add_digests_mono (search_digests query agent 3) _ _
              [L2_insights (load_insights always_loaded)] Hle')
    as (more & Heq & Hsp).
  split.
  - rewrite Heq. by eexists.
  - unfold retrieve_context. fold always_loaded. fold c. simpl.
    destruct (add_digests (B1 - c) _ _) as [r1 t1].
    destruct (add_digests (B2 - c) _ _) as [r2 t2]. simpl in *. lia.
Qed.

(** C8, as amended.  With a budget of 0 the bundle is the L2 entry alone,
    whole, whether or not it fits; the token count reported is that of the
    insights. *)
Theorem retrieve_context_zero_budget (query agent : string) :
  retrieve_context query agent 0
  = {| results := [L2_insights (load_insights always_loaded)];
       token_count :=
         Z.of_nat (count_tokens (load_insights always_loaded)) |}.
Proof.
  unfold retrieve_context. fold always_loaded.
  set (c := Z.of_nat (count_tokens (load_insights always_loaded))).
  assert (0 ≤ c)%Z as Hc by (unfold c; lia).
  assert (add_digests (0 - c) (search_digests query agent 3)
            [L2_insights (load_insights always_loaded)]
          = ([L2_insights (load_insights always_loaded)], (0 - c)%Z)) as Heq.
  { destruct (search_digests query agent 3) as [|d ds]; simpl; [done|].
    destruct (0 - c <? 1000)%Z eqn:Hlt; [done|].
    apply Z.ltb_ge in Hlt. lia. }
  simpl. rewrite Heq.
  destruct (500 <? 0 - c)%Z eqn:Hlt; [apply Z.ltb_lt in Hlt; lia|].
  f_equal. lia.
Qed.

(** *** When the budget is kept, and when everything is returned *)

(** A digest is only added while 1000 tokens are left: if none costs more,
    the loop never overdraws. *)
Lemma add_digests_left (digests : list string) :
  ∀ (budget : Z) (res : list entry),
  (0 ≤ budget)%Z →
  Forall (λ d, count_tokens d ≤ 1000) digests →
  (0 ≤ (add_digests budget digests res).2 ≤ budget)%Z.
Proof.
  induction digests as [|d ds IH]; intros budget res Hb Hall; simpl; [lia|].
  destruct (budget <? 1000)%Z eqn:Hlt; simpl; [lia|].
  apply Z.ltb_ge in Hlt. inversion Hall as [|? ? Hd Hds]; subst.
  cbv beta in Hd.
  assert (0 ≤ budget - Z.of_nat (count_tokens d))%Z as Hb' by lia.
  destruct (IH (budget - Z.of_nat (count_tokens d))%Z
               (res ++ [L1_digest d]) Hb' Hds) as [H0 H1].
  lia.
Qed.

(** With 1000 tokens to spare over the cost of all the digests, the loop
    takes every one of them. *)
Lemma add_digests_all (digests : list string) :
  ∀ (budget : Z) (res : list entry),
  (spent digests + 1000 ≤ budget)%Z →
  add_digests budget digests res
  = (res ++ map L1_digest digests, (budget - spent digests)%Z).
Proof.
  induction digests as [|d ds IH]; intros budget res Hb; simpl in *.
  - rewrite app_nil_r. f_equal. lia.
  - pose proof (spent_nonneg ds).
    destruct (budget <? 1000)%Z eqn:Hlt; [apply Z.ltb_lt in Hlt; lia|].
    rewrite IH by lia. rewrite <- app_assoc. simpl. f_equal. lia.
Qed.

(** The reported token count stays within the budget when the two
    always-loaded insight files fit it and no digest found costs more than
    1000 tokens; the raw references are never counted.  (Without these two
    conditions the count can exceed the budget: the insights are never
    cut, and a digest is added whole as soon as 1000 tokens are left.) *)
Theorem retrieve_context_within_budget (query agent : string) (B : Z) :
  (Z.of_nat (count_tokens (load_insights always_loaded)) ≤ B)%Z →
  Forall (λ d, count_tokens d ≤ 1000) (search_digests query agent 3) →
  (Z.of_nat (count_tokens (load_insights always_loaded))
   ≤ token_count (retrieve_context query agent B) ≤ B)%Z.
Proof.
  intros Hfit Hsmall. unfold retrieve_context. fold always_loaded.
  set (c := Z.of_nat (count_tokens (load_insights always_loaded))) in *.
  pose proof (add_digests_left (search_digests query agent 3) (B - c)%Z
                ([] ++ [L2_insights (load_insights always_loaded)])
                ltac:(lia) Hsmall) as Hleft.
  destruct (add_digests (B - c) _ _) as [res left]. simpl in *. lia.
Qed.

(** A budget that covers the insights and all the digests found, with 1000
    tokens to spare, returns everything: the insights, every digest in the
    order of the search, and the raw references; the count is the cost of
    the insights and the digests. *)
Theorem retrieve_context_ample_budget (query agent : string) (B : Z) :
  let ins := load_insights always_loaded in
  let ranked := search_digests query agent 3 in
  (Z.of_nat (count_tokens ins) + spent ranked + 1000 ≤ B)%Z →
  retrieve_context query agent B
  = {| results := [L2_insights ins] ++ map L1_digest ranked
                  ++ [L0_refs (search_raw query 3)];
       token_count := (Z.of_nat (count_tokens ins) + spent ranked)%Z |}.
Proof.
  intros ins ranked Hample. unfold retrieve_context.
  fold always_loaded. fold ins. fold ranked.
  rewrite add_digests_all by lia.
  destruct (500 <? _)%Z eqn:Hlt; [|apply Z.ltb_ge in Hlt; lia].
  simpl. f_equal. lia.
Qed.

End retrieve_facts.

(** *** A retriever with fixed answers *)

Example fixed_bundle_8000 :
  fixed_bundle 8000
  = {| results := [L2_insights "K"; L1_digest "D";
                   L0_refs ["raw/explorer/20260115_102345.md"]];
       token_count := 1200 |}.
Proof. reflexivity. Qed.

Lemma retrieve_context_monotone_witness :
  (1500 ≤ 1600)%Z
  ∧ texts (fixed_bundle 1500) `prefix_of` texts (fixed_bundle 1600)
  ∧ (token_count (fixed_bundle 1500) ≤ token_count (fixed_bundle 1600))%Z.
Proof.
  split; [lia|].
  apply (@retrieve_context_monotone fixed "mamba" "critic" 1500 1600). lia.
Defined.

(** C3, counterexample.  With 1500 tokens the digest is not reached (900
    left after the insights) but the raw references are (900 > 500); with
    1600 the digest is added and 400 are left, so the references are not.
    The smaller budget returns an entry the larger one lacks. *)
Lemma smaller_budget_returns_refs :
  (1500 < 1600)%Z
  ∧ results (fixed_bundle 1500)
    = [L2_insights "K"; L0_refs ["raw/explorer/20260115_102345.md"]]
  ∧ results (fixed_bundle 1600) = [L2_insights "K"; L1_digest "D"]
  ∧ ¬ results (fixed_bundle 1500) `prefix_of` results (fixed_bundle 1600)
  ∧ ¬ results (fixed_bundle 1500) ⊆ results (fixed_bundle 1600).
Proof.
  split; [lia|]. split; [reflexivity|]. split; [reflexivity|].
  split; refine (proj1 (bool_decide_eq_false _) _); vm_compute; reflexivity.
Qed.

(** C8, counterexample.  The insights cost 600 tokens and do not fit a
    budget of 0; the bundle still holds them, and is not empty. *)
Lemma zero_budget_returns_insights :
  (0 < Z.of_nat (@count_tokens fixed (@load_insights fixed always_loaded)))%Z
  ∧ results (fixed_bundle 0) = [L2_insights "K"].
Proof. split; reflexivity. Qed.

(** *** Retrieval from a store *)

Lemma insert_by_perm {A} (score : A → nat) (x : A) (l : list A) :
  insert_by score x l ≡ₚ x :: l.
Proof.
  induction l as [|y l IH]; simpl; [done|].
  destruct (score y <? score x); [done|].
  rewrite IH. apply Permutation_swap.
Qed.

Lemma rank_by_perm {A} (score : A → nat) (l : list A) :
  rank_by score l ≡ₚ l.
Proof.
  induction l as [|x l IH]; simpl; [done|].
  unfold rank_by in *. simpl. rewrite insert_by_perm. by rewrite IH.
Qed.

Lemma insert_by_sorted {A} (score : A → nat) (x : A) (l : list A) :
  StronglySorted (by_score score) l →
  StronglySorted (by_score score) (insert_by score x l).
Proof.
  induction 1 as [|y l Hs IH Hall]; simpl.
  - repeat constructor.
  - destruct (score y <? score x) eqn:Hlt.
    + apply Nat.ltb_lt in Hlt. constructor; [by constructor|].
      constructor; [unfold by_score; lia|].
      eapply Forall_impl; [exact Hall|]. unfold by_score. intros; lia.
    + apply Nat.ltb_ge in Hlt. constructor; [exact IH|].
      rewrite insert_by_perm. constructor; [exact Hlt|exact Hall].
Qed.

Lemma rank_by_sorted {A} (score : A → nat) (l : list A) :
  StronglySorted (by_score score) (rank_by score l).
Proof.
  induction l as [|x l IH]; [constructor|].
  apply insert_by_sorted, IH.
Qed.

(** The digests handed to an agent come best first and never include its
    own. *)
Lemma search_digests_ranked (relevance : string → string → nat) (s : store)
    (query agent : string) (top_k : nat) :
  let R := store_retriever relevance s in
  StronglySorted (by_score (relevance query))
    (@search_digests R query agent top_k)
  ∧ ∀ text, text ∈ @search_digests R query agent top_k →
      ∃ d, d ∈ digest s ∧ digest_text d = text ∧ digest_agent d ≠ agent.
Proof.
  simpl. split.
  - generalize (rank_by_sorted (relevance query)
      (map digest_text
         (List.filter (λ d, negb (String.eqb (digest_agent d) agent))
            (digest s)))).
    generalize (rank_by (relevance query)
      (map digest_text
         (List.filter (λ d, negb (String.eqb (digest_agent d) agent))
            (digest s)))).
    intros l Hl. revert top_k.
    induction Hl as [|x l Hs IH Hall]; intros [|k]; simpl;
      try constructor; [apply IH|].
    eapply Forall_forall. intros y Hy.
    apply (proj1 (Forall_forall _ _) Hall).
    eapply subseteq_take, Hy.
  - intros text Hin. apply subseteq_take in Hin.
    rewrite rank_by_perm in Hin.
    apply list_elem_of_fmap in Hin as (d & -> & Hd).
    apply list_elem_of_In, List.filter_In in Hd as [Hd Hne].
    exists d. split; [by apply list_elem_of_In|]. split; [done|].
    intros Heq. apply negb_true_iff, String.eqb_neq in Hne. done.
Qed.

Example session_bundle_critic :
  session_bundle "critic" 8000
  = {| results :=
         [ L2_insights "FQ"; L1_digest "mamba: O(n)";
           L1_digest "S4 came first";
           L0_refs ["raw/explorer/20260115_102345.md"] ];
       token_count := 26 |}.
Proof. vm_compute. reflexivity. Qed.

(** C2, counterexample.  The store holds a third insight file,
    [contradictions.md]; the bundle's L2 entry is made of
    [key_findings.md] and [open_questions.md] only. *)
Lemma third_insight_file_not_loaded :
  insight_contents session_store !! "contradictions.md" = Some "X"
  ∧ head (results (session_bundle "critic" 8000)) = Some (L2_insights "FQ")
  ∧ contains "X" "FQ" = false
  ∧ L2_insights "X" ∉ results (session_bundle "critic" 8000).
Proof.
  split; [vm_compute; reflexivity|]. split; [vm_compute; reflexivity|].
  split; [reflexivity|].
  refine (proj1 (bool_decide_eq_false _) _). vm_compute. reflexivity.
Qed.

(** *** The insight pass *)


Lemma insight_contents_write (now : nat) (i : synthesis) (s : store)
    (name : string) :
  insight_contents (write_insights now i s) !! name
  = if decide (name = "key_findings.md") then Some (key_findings i)
    else if decide (name = "open_questions.md") then Some (open_questions i)
    else if decide (name = "action_items.md") then Some (action_items i)
    else if decide (name = "contradictions.md") then Some (contradictions i)
    else insight_contents s !! name.
Proof.
  unfold insight_contents, write_insights, write_file. simpl.
  rewrite !lookup_fmap, !lookup_insert.
  repeat (case_decide; subst; simpl; try done).
  all: by rewrite ?lookup_fmap.
Qed.


(** Raw records written between two runs do not change the result
    either, as long as no digest is rewritten. *)
Lemma generate_insights_after_raw (llm : list digest_file → synthesis)
    (now later : nat) (f : raw_file) (s : store) :
  insight_contents
    (generate_insights llm later
       (write_raw f (generate_insights llm now s)))
  = insight_contents (generate_insights llm now s).
Proof.
  apply map_eq. intros name. unfold generate_insights.
  rewrite !insight_contents_write. unfold write_raw, insight_contents.
  simpl. unfold write_file. rewrite !lookup_fmap, !lookup_insert.
  repeat (case_decide; subst; simpl; try done).
Qed.

(** A digest rewritten between two runs does show. *)
Example generate_insights_after_digest :
  let llm := λ ds : list digest_file,
    {| key_findings := String.concat "; " (map digest_text ds);
       open_questions := ""; action_items := ""; contradictions := "" |} in
  let s1 := generate_insights llm 10 session_store in
  let s2 :=
    {| raw := raw s1;
       digest := digest s1 ++
                 [{| digest_agent := "logician"; digest_text := "proved" |}];
       insights := insights s1 |} in
  insight_contents s1 !! "key_findings.md"
  = Some "mamba: O(n); mamba: short inputs?; S4 came first"
  ∧ insight_contents (generate_insights llm 20 s2) !! "key_findings.md"
    = Some "mamba: O(n); mamba: short inputs?; S4 came first; proved".
Proof. vm_compute. split; reflexivity. Qed.

(** *** The budget, on the retriever with fixed answers *)

Lemma retrieve_context_within_budget_witness :
  (Z.of_nat (@count_tokens fixed (@load_insights fixed always_loaded))
   ≤ 8000)%Z
  ∧ Forall (λ d, @count_tokens fixed d ≤ 1000)
      (@search_digests fixed "mamba" "critic" 3)
  ∧ (Z.of_nat (@count_tokens fixed (@load_insights fixed always_loaded))
     ≤ token_count (fixed_bundle 8000) ≤ 8000)%Z.
Proof.
  assert (Z.of_nat (@count_tokens fixed (@load_insights fixed always_loaded))
          ≤ 8000)%Z as Hfit by (simpl; lia).
  assert (Forall (λ d, @count_tokens fixed d ≤ 1000)
            (@search_digests fixed "mamba" "critic" 3)) as Hsmall
    by (repeat constructor; simpl; lia).
  split; [exact Hfit|]. split; [exact Hsmall|].
  exact (@retrieve_context_within_budget fixed "mamba" "critic" 8000
           Hfit Hsmall).
Defined.

Lemma retrieve_context_ample_budget_witness :
  (Z.of_nat (@count_tokens fixed (@load_insights fixed always_loaded))
   + @spent fixed (@search_digests fixed "mamba" "critic" 3) + 1000
   ≤ 8000)%Z
  ∧ fixed_bundle 8000
    = {| results := [L2_insights "K"; L1_digest "D";
                     L0_refs ["raw/explorer/20260115_102345.md"]];
         token_count := 1200 |}.
Proof.
  assert (Z.of_nat (@count_tokens fixed (@load_insights fixed always_loaded))
          + @spent fixed (@search_digests fixed "mamba" "critic" 3) + 1000
          ≤ 8000)%Z as Hample by (simpl; lia).
  split; [exact Hample|].
  exact (@retrieve_context_ample_budget fixed "mamba" "critic" 8000 Hample).
Defined.

End MemoryFacts.

(** ** The layering of the task graph *)

Module DecomposerFacts.
Import Decomposer.

Lemma NoDup_fmap_eq {A B} (f : A → B) (l : list A) (x y : A) :
  NoDup (map f l) → x ∈ l → y ∈ l → f x = f y → x = y.
Proof.
  induction l as [|a l IH]; simpl; intros Hnd Hx Hy Heq.
  - by apply elem_of_nil in Hx.
  - apply NoDup_cons in Hnd as [Hnotin Hnd].
    apply elem_of_cons in Hx as [->|Hx]; apply elem_of_cons in Hy as [->|Hy].
    + done.
    + exfalso. apply Hnotin. rewrite Heq. by apply list_elem_of_fmap_2.
    + exfalso. apply Hnotin. rewrite <- Heq. by apply list_elem_of_fmap_2.
    + by apply IH.
Qed.

Lemma assign_lookup (k : nat) (now : list subtask) (done : gmap string nat)
    (i : string) :
  assign k now done !! i
  = if decide (i ∈ map sub_id now) then Some k else done !! i.
Proof.
  induction now as [|t now IH].
  - rewrite decide_False; [done|]. apply not_elem_of_nil.
  - cbn [assign foldr map]. fold (assign k now done).
    rewrite lookup_insert, IH.
    destruct (decide (sub_id t = i)) as [Hi|Hi].
    + rewrite decide_True; [done|]. subst. apply elem_of_cons; by left.
    + destruct (decide (i ∈ map sub_id now)) as [Hin|Hin].
      * rewrite decide_True; [done|]. apply elem_of_cons; by right.
      * rewrite decide_False; [done|].
        intros [?|?]%elem_of_cons; [congruence|done].
Qed.

Lemma ready_spec (done : gmap string nat) (t : subtask) :
  ready done t = true ↔ ∀ d, d ∈ sub_dependencies t → is_Some (done !! d).
Proof.
  unfold ready. rewrite forallb_forall. split.
  - intros H d Hd. apply list_elem_of_In, H in Hd.
    by apply bool_decide_eq_true in Hd.
  - intros H d Hd. apply bool_decide_eq_true, H. by apply list_elem_of_In.
Qed.

Section layering.
Variable all : list subtask.
Hypothesis all_nodup : NoDup (map sub_id all).

Abbreviation layered := (Decomposer.layered all).
Abbreviation well_layered := (Decomposer.well_layered all).

Lemma layered_start : layered 0 ∅ all.
Proof.
  split; try done.
  - intros t Ht. by left.
  - lia.
Qed.

Lemma elem_of_filter_list {A} (P : A → bool) (l : list A) (x : A) :
  x ∈ List.filter P l ↔ x ∈ l ∧ P x = true.
Proof. rewrite !list_elem_of_In. apply List.filter_In. Qed.

Lemma layered_round (k : nat) (done : gmap string nat)
    (waiting : list subtask) :
  layered k done waiting →
  layered (S k) (assign k (List.filter (ready done) waiting) done)
    (List.filter (λ t, negb (ready done t)) waiting).
Proof.
  intros [Hsub Hnone Hcover Hdom Hlt Hdeps Hzero Hfirst].
  set (now := List.filter (ready done) waiting).
  assert (∀ t, t ∈ all → sub_id t ∈ map sub_id now → t ∈ now) as Hnow.
  { intros t Ht (u & Heq & Hu)%list_elem_of_fmap.
    assert (u ∈ all) as Hu'
      by (apply Hsub; by apply elem_of_filter_list in Hu as [? _]).
    by rewrite (NoDup_fmap_eq sub_id all t u all_nodup Ht Hu' Heq). }
  assert (∀ d, is_Some (done !! d) → d ∉ map sub_id now) as Hold.
  { intros d [g Hg] (u & -> & Hu)%list_elem_of_fmap.
    apply elem_of_filter_list in Hu as [Hu _].
    rewrite (Hnone _ Hu) in Hg. done. }
  split.
  - intros t [Ht _]%elem_of_filter_list. by apply Hsub.
  - intros t [Ht Hnr]%elem_of_filter_list.
    rewrite assign_lookup, decide_False; [by apply Hnone|].
    intros Hin. apply Hnow in Hin; [|by apply Hsub].
    apply elem_of_filter_list in Hin as [_ Hr].
    rewrite Hr in Hnr. done.
  - intros t Ht. rewrite assign_lookup.
    destruct (Hcover t Ht) as [Hw|Hs].
    + destruct (ready done t) eqn:Hr.
      * right. rewrite decide_True; [done|].
        apply list_elem_of_fmap_2. by apply elem_of_filter_list.
      * left. apply elem_of_filter_list. by rewrite Hr.
    + right. case_decide; [done|exact Hs].
  - intros i g. rewrite assign_lookup. case_decide as Hin.
    + intros _. apply list_elem_of_fmap in Hin as (u & -> & Hu).
      exists u. split; [|done]. apply Hsub.
      by apply elem_of_filter_list in Hu as [? _].
    + apply Hdom.
  - intros i g. rewrite assign_lookup. case_decide.
    + intros [= <-]. lia.
    + intros Hg. apply Hlt in Hg. lia.
  - intros t g Ht. rewrite assign_lookup. case_decide as Hin.
    + intros [= <-] d Hd. apply Hnow in Hin; [|done].
      apply elem_of_filter_list in Hin as [_ Hr].
      destruct (proj1 (ready_spec done t) Hr d Hd) as [g' Hg'].
      exists g'. rewrite assign_lookup, decide_False; [|by apply Hold].
      split; [done|]. by eapply Hlt.
    + intros Hg d Hd. destruct (Hdeps t g Ht Hg d Hd) as (g' & Hg' & Hlt').
      exists g'. rewrite assign_lookup, decide_False; [done|].
      by apply Hold.
  - intros t g Ht. rewrite assign_lookup. case_decide as Hin.
    + intros [= <-] Hnodeps. apply Hnow in Hin; [|done].
      apply elem_of_filter_list in Hin as [Hw _].
      destruct k as [|k]; [done|].
      exfalso. by apply (Hfirst ltac:(lia) t Hw).
    + apply Hzero, Ht.
  - intros _ t [Ht Hnr]%elem_of_filter_list Hnodeps.
    unfold ready in Hnr. rewrite Hnodeps in Hnr. done.
Qed.

Lemma layered_done (k : nat) (done : gmap string nat) :
  layered k done [] → well_layered done.
Proof.
  intros [_ _ Hcover Hdom _ Hdeps Hzero _] t Ht.
  destruct (Hcover t Ht) as [Hin|[g Hg]]; [by apply elem_of_nil in Hin|].
  exists g. split; [done|]. split; [by apply (Hzero t)|].
  intros d Hd. destruct (Hdeps t g Ht Hg d Hd) as (g' & Hg' & Hlt).
  destruct (Hdom d g' Hg') as (u & Hu & Hid). by exists g', u.
Qed.

Lemma layer_sound (fuel : nat) :
  ∀ (k : nat) (done : gmap string nat) (waiting : list subtask)
    (groups : gmap string nat),
  layered k done waiting →
  layer fuel k done waiting = Some groups →
  well_layered groups.
Proof.
  induction fuel as [|fuel IH]; intros k done waiting groups Hlay Hrun.
  - destruct waiting; simpl in Hrun; [|discriminate].
    injection Hrun as <-. by eapply layered_done.
  - destruct waiting as [|w ws].
    { simpl in Hrun. injection Hrun as <-. by eapply layered_done. }
    pose proof (layered_round k done (w :: ws) Hlay) as Hnext.
    cbn [layer] in Hrun.
    destruct (List.filter (ready done) (w :: ws)) eqn:Hnow; [discriminate|].
    eapply IH; [exact Hnext|exact Hrun].
Qed.

End layering.

(** The fuel [build] gives never runs out: [layer] fails only in a round
    in which subtasks wait and none of them is ready. *)
Lemma layer_stuck (fuel : nat) :
  ∀ (k : nat) (done : gmap string nat) (waiting : list subtask),
  length waiting ≤ fuel →
  layer fuel k done waiting = None →
  ∃ done' waiting',
    waiting' ≠ []
    ∧ (∀ t, t ∈ waiting' → t ∈ waiting)
    ∧ List.filter (ready done') waiting' = [].
Proof.
  induction fuel as [|fuel IH]; intros k done waiting Hlen Hrun;
    destruct waiting as [|w ws]; try (simpl in Hrun; discriminate).
  { simpl in Hlen. lia. }
  cbn [layer] in Hrun.
  destruct (List.filter (ready done) (w :: ws)) as [|t now] eqn:Hnow.
  { exists done, (w :: ws). by repeat split. }
  rewrite <- Hnow in Hrun. apply IH in Hrun.
  - destruct Hrun as (done' & waiting' & Hne & Hsub & Hstuck).
    exists done', waiting'. repeat split; try done.
    intros u Hu. apply Hsub in Hu.
    by apply elem_of_filter_list in Hu as [? _].
  - pose proof (List.filter_length (ready done) (w :: ws)) as Hsplit.
    rewrite Hnow in Hsplit. simpl in Hsplit, Hlen. simpl. lia.
Qed.

Lemma filter_nil_all {A} (P : A → bool) (l : list A) (x : A) :
  List.filter P l = [] → x ∈ l → P x = false.
Proof.
  intros Hnil Hx. destruct (P x) eqn:HP; [|done].
  assert (x ∈ List.filter P l) as Hin by by apply elem_of_filter_list.
  rewrite Hnil in Hin. by apply elem_of_nil in Hin.
Qed.

(** What a successful [build] returns. *)
Lemma build_inr (plan : list subtask) (enabled : list string)
    (ts : list ResearchTask) :
  build plan enabled = inr ts →
  plan ≠ []
  ∧ NoDup (map sub_id plan)
  ∧ (∀ t, t ∈ plan → sub_agent t ∈ enabled)
  ∧ ∃ groups, well_layered plan groups
              ∧ ts = imap (to_task groups plan) plan.
Proof.
  unfold build. destruct plan as [|p plan']; [done|].
  set (plan := p :: plan').
  destruct (List.filter _ plan) eqn:Hagents; [|done].
  destruct (bool_decide (NoDup (map sub_id plan))) eqn:Hnd; [|done].
  apply bool_decide_eq_true in Hnd.
  destruct (layer (length plan) 0 ∅ plan) as [groups|] eqn:Hlayer; [|done].
  intros [= <-]. split; [done|]. split; [done|]. split.
  - intros t Ht. apply (filter_nil_all _ _ t Hagents) in Ht.
    apply bool_decide_eq_false in Ht. by apply dec_stable.
  - exists groups. split; [|done].
    eapply layer_sound; [done| |exact Hlayer]. by apply layered_start.
Qed.

Lemma imap_ids (l : list subtask) :
  ∀ f : nat → subtask → ResearchTask,
  (∀ i t, id (f i t) = sub_id t) →
  map id (imap f l) = map sub_id l.
Proof.
  induction l as [|x l IH]; intros f Hf; simpl; [done|].
  rewrite Hf. f_equal. apply IH. intros i t. apply Hf.
Qed.

Lemma build_inr_tasks (plan : list subtask) (enabled : list string)
    (ts : list ResearchTask) :
  build plan enabled = inr ts →
  NoDup (map id ts) ∧ ∀ t, t ∈ ts → status t = pending.
Proof.
  intros (_ & Hnd & _ & groups & _ & ->)%build_inr. split.
  - by rewrite imap_ids.
  - intros t (i & p & -> & _)%elem_of_lookup_imap. reflexivity.
Qed.

Lemma build_graded (plan : list subtask) (enabled : list string)
    (ts : list ResearchTask) :
  build plan enabled = inr ts → graded ts.
Proof.
  intros (_ & Hnd & _ & groups & Hwl & ->)%build_inr.
  assert (∀ t, t ∈ imap (to_task groups plan) plan →
            ∃ p g, p ∈ plan ∧ groups !! sub_id p = Some g
                   ∧ id t = sub_id p
                   ∧ dependencies t = sub_dependencies p
                   ∧ execution_group t = g) as Hshape.
  { intros t (i & p & -> & Hp)%elem_of_lookup_imap.
    assert (p ∈ plan) as Hin by (apply list_elem_of_lookup; eauto).
    destruct (Hwl p Hin) as (g & Hg & _).
    exists p, g. simpl. rewrite Hg. done. }
  repeat split.
  - intros a b (Ha & Hb & Hdep).
    destruct (Hshape a Ha) as (pa & ga & Hpa & Hga & _ & Hda & ->).
    destruct (Hshape b Hb) as (pb & gb & Hpb & Hgb & Hib & _ & ->).
    destruct (Hwl pa Hpa) as (g & Hg & _ & Hbelow).
    rewrite Hda, Hib in Hdep.
    destruct (Hbelow _ Hdep) as (g' & _ & Hg' & Hlt & _).
    congruence.
  - intros t Ht Hnodeps.
    destruct (Hshape t Ht) as (p & g & Hp & Hg & _ & Hd & ->).
    destruct (Hwl p Hp) as (g0 & Hg0 & Hzero & _).
    rewrite Hd in Hnodeps. rewrite Hg in Hg0. injection Hg0 as <-.
    by apply Hzero.
  - intros t d Ht Hd.
    destruct (Hshape t Ht) as (p & g & Hp & Hg & _ & Hdeps & _).
    destruct (Hwl p Hp) as (g0 & _ & _ & Hbelow).
    rewrite Hdeps in Hd.
    destruct (Hbelow d Hd) as (g' & u & _ & _ & Hu & Hid).
    apply list_elem_of_lookup in Hu as [j Hj].
    exists (to_task groups plan j u). split; [|done].
    by apply elem_of_lookup_imap_2.
Qed.

Lemma graded_path (ts : list ResearchTask) (a b : ResearchTask) :
  graded ts → tc (edge ts) a b → execution_group b < execution_group a.
Proof.
  intros (Hedge & _ & _). induction 1 as [a b Hab|a b c Hab _ IH].
  - by apply Hedge.
  - apply Hedge in Hab. lia.
Qed.

Lemma max_list_lt (n : nat) (l : list nat) :
  0 < n → Forall (λ g, g < n) l → max_list l < n.
Proof. intros Hn. induction 1; simpl; lia. Qed.

(** C1.  A task list that the Decomposer returns has no dependency cycle;
    a task without dependencies is in group 0; the group of any other task
    is strictly greater than the greatest group among the tasks it depends
    on, each of which is a task of the list; and no task depends on a task
    of its own group. *)
Theorem decompose_layering (propose : string → list string → list subtask)
    (task_description : string) (enabled : list string)
    (ts : list ResearchTask) :
  decompose propose task_description enabled = inr ts →
  acyclic ts
  ∧ (∀ t, t ∈ ts → dependencies t = [] → execution_group t = 0)
  ∧ (∀ t, t ∈ ts → dependencies t ≠ [] →
       max_list (dep_groups ts t) < execution_group t)
  ∧ (∀ t d, t ∈ ts → d ∈ dependencies t → ∃ u, u ∈ ts ∧ id u = d)
  ∧ (∀ a b, a ∈ ts → b ∈ ts →
       execution_group a = execution_group b → id b ∉ dependencies a).
Proof.
  unfold decompose. intros Hgraded%build_graded.
  pose proof Hgraded as (Hedge & Hzero & Hnames).
  repeat split; try done.
  - intros t Hcycle%(graded_path ts t t Hgraded). lia.
  - intros t Ht Hdeps.
    assert (Forall (λ g, g < execution_group t) (dep_groups ts t)) as Hall.
    { apply Forall_forall. intros g (u & -> & Hu)%list_elem_of_fmap.
      apply elem_of_filter_list in Hu as [Hu Hdep].
      apply bool_decide_eq_true in Hdep. by apply Hedge. }
    apply max_list_lt; [|done].
    destruct (dependencies t) as [|d ds] eqn:Hd; [done|].
    destruct (Hnames t d Ht) as (u & Hu & Hid);
      [rewrite Hd; apply elem_of_cons; by left|].
    assert (execution_group u < execution_group t); [|lia].
    apply Hedge. repeat split; try done.
    rewrite Hid, Hd. apply elem_of_cons; by left.
  - intros a b Ha Hb Heq Hdep.
    assert (execution_group b < execution_group a) by by apply Hedge.
    lia.
Qed.

Example build_example : build example_plan example_agents = inr example_tasks.
Proof. vm_compute. reflexivity. Qed.

Example build_cycle_example :
  build
    [ {| sub_id := "a"; sub_description := ""; sub_agent := "explorer";
         sub_priority := low; sub_dependencies := ["b"] |};
      {| sub_id := "b"; sub_description := ""; sub_agent := "explorer";
         sub_priority := low; sub_dependencies := ["a"] |} ]
    example_agents
  = inl InvalidGraph.
Proof. vm_compute. reflexivity. Qed.

Example build_disabled_agent_example :
  build example_plan ["explorer"; "logician"] = inl (MissingAgent "critic").
Proof. vm_compute. reflexivity. Qed.

Lemma decompose_layering_witness :
  decompose example_propose "Compare Transformer and SSM architectures"
    example_agents = inr example_tasks
  ∧ acyclic example_tasks
  ∧ (∀ t, t ∈ example_tasks → dependencies t = [] → execution_group t = 0)
  ∧ (∀ t, t ∈ example_tasks → dependencies t ≠ [] →
       max_list (dep_groups example_tasks t) < execution_group t)
  ∧ (∀ t d, t ∈ example_tasks → d ∈ dependencies t →
       ∃ u, u ∈ example_tasks ∧ id u = d)
  ∧ (∀ a b, a ∈ example_tasks → b ∈ example_tasks →
       execution_group a = execution_group b → id b ∉ dependencies a).
Proof.
  split; [vm_compute; reflexivity|].
  apply (decompose_layering example_propose
           "Compare Transformer and SSM architectures" example_agents).
  vm_compute. reflexivity.
Defined.

End DecomposerFacts.

(** ** The barrier between groups *)

Module OrchestratorFacts.
Import Decomposer Orchestrator.

Lemma with_status_with_status (a b : task_status) (t : ResearchTask) :
  with_status a (with_status b t) = with_status a t.
Proof. reflexivity. Qed.

Lemma set_status_ids (i : string) (st : task_status)
    (ts : list ResearchTask) :
  map id (set_status i st ts) = map id ts.
Proof.
  unfold set_status. rewrite map_map. apply map_ext.
  intros t. by destruct (decide (id t = i)).
Qed.

Lemma elem_of_set_status (i : string) (st : task_status)
    (ts : list ResearchTask) (u' : ResearchTask) :
  u' ∈ set_status i st ts →
  ∃ u, u ∈ ts ∧ ((id u = i ∧ u' = with_status st u) ∨ (id u ≠ i ∧ u' = u)).
Proof.
  intros (u & -> & Hu)%list_elem_of_fmap. exists u. split; [done|].
  destruct (decide (id u = i)); [left|right]; done.
Qed.

Lemma barrier_at_set_status (k : nat) (ts : list ResearchTask)
    (t : ResearchTask) (st : task_status) :
  NoDup (map id ts) → barrier_at k ts → t ∈ ts →
  execution_group t = k ∨ (execution_group t ≤ k ∧ terminal st) →
  barrier_at k (set_status (id t) st ts).
Proof.
  intros Hnd Hb Ht Hcase u' (u & Hu & Hu')%elem_of_set_status.
  destruct Hu' as [[Hid ->]|[_ ->]]; [|by apply Hb].
  assert (u = t) as -> by by eapply DecomposerFacts.NoDup_fmap_eq.
  simpl. destruct Hcase as [Hk|[Hle Hterm]]; split; intros; try lia; done.
Qed.

Lemma not_pending_below (k : nat) (ts : list ResearchTask)
    (t : ResearchTask) :
  barrier_at k ts → t ∈ ts → status t ≠ pending → execution_group t ≤ k.
Proof.
  intros Hb Ht Hst. destruct (Hb t Ht) as [Habove _].
  destruct (decide (k < execution_group t)) as [Hlt|]; [|lia].
  by apply Habove in Hlt.
Qed.

Lemma barrier_inv_abort (s : session) :
  barrier_inv s → barrier_inv (abort s).
Proof.
  intros (Hnd & k & Hb & _). split.
  - simpl. rewrite map_map.
    erewrite map_ext; [exact Hnd|].
    intros t. simpl. by destruct (decide (status t = in_progress)).
  - exists k. split; [|done].
    intros u' (u & -> & Hu)%list_elem_of_fmap.
    destruct (decide (status u = in_progress)) as [Hrun|]; [|by apply Hb].
    simpl. split.
    + intros Habove. exfalso.
      assert (execution_group u ≤ k); [|lia].
      eapply not_pending_below; [exact Hb|exact Hu|]. by rewrite Hrun.
    + intros _. right; by left.
Qed.

Section barrier.
Variable plan : list subtask.
Variable enabled : list string.
Variable max_concurrent : nat.
Variable retry_budget : nat.
Variable synthesize : list (string * string) → string.

Abbreviation step :=
  (step plan enabled max_concurrent retry_budget synthesize).
Abbreviation reachable :=
  (reachable plan enabled max_concurrent retry_budget synthesize).

Lemma barrier_inv_step (s s' : session) :
  barrier_inv s → step s s' → barrier_inv s'.
Proof.
  intros Hinv Hstep. pose proof Hinv as (Hnd & k0 & Hb & Hk).
  destruct Hstep as
    [ s Hp | s ts Hp Hbuild | s e Hp Hbuild
    | s k t Hp Ht Hg Hst Hrun | s k t Hp Ht Hg Hst
    | s k t Hp Ht Hst | s k t Hp Ht Hst Hre
    | s k t output Hp Ht Hst | s k t Hp Ht Hst Hre
    | s k Hp Hdone Hlast | s k Hp Hdone Hlast
    | s Hp | s k Hp ].
  - split; [done|]. exists k0. split; [done|]. done.
  - apply DecomposerFacts.build_inr_tasks in Hbuild as [Hnd' Hpend].
    split; [done|]. exists 0. split; [|by intros k' [= <-]].
    intros t Ht. split; [intros _; by apply Hpend|lia].
  - by apply barrier_inv_abort.
  - rewrite (Hk k Hp) in Hg. split; [simpl; by rewrite set_status_ids|].
    exists k0. split; [|simpl; exact Hk].
    simpl. apply barrier_at_set_status; auto.
  - rewrite (Hk k Hp) in Hg. split; [simpl; by rewrite set_status_ids|].
    exists k0. split; [|simpl; exact Hk].
    simpl. apply barrier_at_set_status; auto.
  - split; [done|]. exists k0. split; [done|]. simpl. exact Hk.
  - split; [done|]. exists k0. split; [done|]. simpl. exact Hk.
  - split; [simpl; by rewrite set_status_ids|].
    exists k0. split; [|simpl; exact Hk].
    simpl. apply barrier_at_set_status; auto. right. split; [|by left].
    eapply not_pending_below; [exact Hb|exact Ht|]. by rewrite Hst.
  - split; [simpl; by rewrite set_status_ids|].
    exists k0. split; [|simpl; exact Hk].
    simpl. apply barrier_at_set_status; auto.
    right. split; [|right; by left].
    eapply not_pending_below; [exact Hb|exact Ht|]. by rewrite Hst.
  - rewrite (Hk k Hp) in *. split; [done|].
    exists (S k0). split; [|by intros k' [= <-]].
    intros t Ht. destruct (Hb t Ht) as [Habove Hbelow]. split.
    + intros Hlt. apply Habove. lia.
    + intros Hlt. destruct (decide (execution_group t = k0)) as [Heq|].
      * by apply Hdone.
      * apply Hbelow. lia.
  - rewrite (Hk k Hp) in *. split; [done|].
    exists (S k0). split; [|done].
    intros t Ht. destruct (Hb t Ht) as [Habove Hbelow]. split.
    + intros Hlt. specialize (Hlast t Ht). lia.
    + intros Hlt. destruct (decide (execution_group t = k0)) as [Heq|].
      * by apply Hdone.
      * apply Hbelow. lia.
  - split; [done|]. exists k0. split; [done|]. done.
  - by apply barrier_inv_abort.
Qed.

Lemma barrier_inv_reachable (s : session) : reachable s → barrier_inv s.
Proof.
  unfold Orchestrator.reachable. intros Hrun. pattern s.
  eapply rtc_ind_r; [| |exact Hrun].
  - split; [constructor|]. exists 0. split; [|done].
    intros t Ht. by apply elem_of_nil in Ht.
  - intros y z _ Hstep IH. by eapply barrier_inv_step.
Qed.

(** C5.  In every state the Orchestrator can reach, a task that is no
    longer pending has every task of every lower group, so in particular
    of the group just before its own, in a terminal status. *)
Theorem barrier (s : session) (t u : ResearchTask) :
  reachable s →
  t ∈ tasks s → u ∈ tasks s →
  execution_group t < execution_group u →
  status u ≠ pending →
  terminal (status t).
Proof.
  intros (_ & k & Hb & _)%barrier_inv_reachable Ht Hu Hlt Hst.
  assert (execution_group u ≤ k) by by eapply not_pending_below.
  apply (Hb t Ht). lia.
Qed.

End barrier.

(** *** The example of section 8, part of the way *)

Ltac by_decide := refine (bool_decide_unpack _ _); vm_compute; exact I.

Lemma second_group_begun_reachable :
  reachable example_plan example_agents 5 1 quoting_synthesis
    second_group_begun.
Proof.
  unfold reachable, second_group_begun.
  eapply rtc_r; [eapply rtc_r; [eapply rtc_r; [eapply rtc_r;
    [eapply rtc_r; [eapply rtc_r; [apply rtc_refl|]|]|]|]|]|].
  - by apply step_start.
  - apply step_decomposed; [done|]. apply DecomposerFacts.build_example.
  - apply (step_dispatch _ _ _ _ _ _ 0 task1); try done; by_decide.
  - apply (step_complete _ _ _ _ _ _ 0 (with_status in_progress task1)
             "23 papers"); try done; by_decide.
  - apply step_advance; [done|by_decide|].
    refine (proj1 (bool_decide_eq_false _) _). vm_compute. reflexivity.
  - apply (step_dispatch _ _ _ _ _ _ 1 task2); try done; by_decide.
Qed.

Lemma barrier_witness :
  reachable example_plan example_agents 5 1 quoting_synthesis
    second_group_begun
  ∧ with_status completed task1 ∈ tasks second_group_begun
  ∧ with_status in_progress task2 ∈ tasks second_group_begun
  ∧ terminal (status (with_status completed task1)).
Proof.
  split; [exact second_group_begun_reachable|].
  split; [by_decide|]. split; [by_decide|].
  apply (barrier example_plan example_agents 5 1 quoting_synthesis
           second_group_begun
           (with_status completed task1) (with_status in_progress task2)).
  - exact second_group_begun_reachable.
  - by_decide.
  - by_decide.
  - simpl. lia.
  - simpl. discriminate.
Defined.

(** *** A whole session *)

Section run_facts.
Variable retry_budget : nat.
Variable exec : ResearchTask → nat → option string.

Abbreviation outcome := (Orchestrator.outcome exec).
Abbreviation result := (Orchestrator.result retry_budget exec).
Abbreviation settled := (Orchestrator.settled retry_budget exec).
Abbreviation task_outputs := (Orchestrator.task_outputs retry_budget exec).
Abbreviation task_events := (Orchestrator.task_events retry_budget exec).
Abbreviation mark := (Orchestrator.mark retry_budget exec).

Lemma attempts_spec (left : nat) :
  ∀ (n : nat) (t : ResearchTask) (s : session),
  let o := outcome left n t in
  let s' := attempts exec left n t s in
  session_phase s' = session_phase s
  ∧ tasks s' = set_status (id t) (status_of o) (tasks s)
  ∧ outputs s' = outputs s ++ output_of t o
  ∧ synthesis s' = synthesis s
  ∧ events s' = events s ++ [closing_event t o].
Proof.
  induction left as [|left IH]; intros n t s; simpl;
    destruct (exec t n) as [output|]; simpl; try by rewrite ?app_nil_r.
  apply (IH (S n) t (retry (id t) s)).
Qed.

Lemma set_status_set_status (i : string) (a b : task_status)
    (ts : list ResearchTask) :
  set_status i a (set_status i b ts) = set_status i a ts.
Proof.
  unfold set_status. rewrite map_map. apply map_ext. intros t.
  destruct (decide (id t = i)) as [Hi|Hi]; simpl.
  - by rewrite decide_True.
  - by rewrite decide_False.
Qed.

Lemma run_task_spec (s : session) (t : ResearchTask) :
  let s' := run_task retry_budget exec s t in
  session_phase s' = session_phase s
  ∧ tasks s' = set_status (id t) (status_of (result t)) (tasks s)
  ∧ outputs s' = outputs s ++ output_of t (result t)
  ∧ synthesis s' = synthesis s
  ∧ events s'
    = events s ++ [task_started (id t); closing_event t (result t)].
Proof.
  unfold run_task.
  destruct (attempts_spec retry_budget 0 t (dispatch (id t) s))
    as (Hp & Ht & Ho & Hs & He).
  simpl in *. rewrite Hp, Ht, Ho, Hs, He.
  rewrite set_status_set_status, <- app_assoc. done.
Qed.

Section over_tasks.
Variable ts : list ResearchTask.
Hypothesis ts_nodup : NoDup (map id ts).

Abbreviation groups_trace :=
  (Orchestrator.groups_trace retry_budget exec ts).
Abbreviation groups_outputs :=
  (Orchestrator.groups_outputs retry_budget exec ts).

Lemma set_status_mark (P : ResearchTask → bool) (x : ResearchTask) :
  x ∈ ts →
  set_status (id x) (status_of (result x)) (map (mark P) ts)
  = map (mark (λ u, P u || bool_decide (id u = id x))) ts.
Proof.
  intros Hx. unfold set_status. rewrite map_map.
  apply map_ext_in. intros u Hu%list_elem_of_In.
  assert (id (mark P u) = id u) as Hid by (unfold mark; by destruct (P u)).
  rewrite Hid.
  destruct (decide (id u = id x)) as [Heq|Hne].
  - assert (u = x) as ->
      by by eapply DecomposerFacts.NoDup_fmap_eq.
    unfold mark. rewrite bool_decide_eq_true_2 by done.
    rewrite orb_true_r. by destruct (P x).
  - unfold mark. rewrite bool_decide_eq_false_2 by done.
    by rewrite orb_false_r.
Qed.

Lemma foldl_run_task (l : list ResearchTask) :
  ∀ (s : session) (P : ResearchTask → bool),
  (∀ x, x ∈ l → x ∈ ts) →
  tasks s = map (mark P) ts →
  let s' := foldl (run_task retry_budget exec) s l in
  session_phase s' = session_phase s
  ∧ tasks s'
    = map (mark (λ u, P u || bool_decide (id u ∈ map id l))) ts
  ∧ outputs s' = outputs s ++ task_outputs l
  ∧ synthesis s' = synthesis s
  ∧ events s' = events s ++ task_events l.
Proof.
  induction l as [|x l IH]; intros s P Hsub Htasks s'; subst s';
    cbn [foldl].
  - unfold task_outputs, task_events. cbn [map concat].
    rewrite !app_nil_r. repeat split; try done.
    rewrite Htasks. apply map_ext. intros u. unfold mark.
    rewrite bool_decide_eq_false_2, orb_false_r; [done|].
    apply not_elem_of_nil.
  - destruct (run_task_spec s x) as (Hp & Ht & Ho & Hs & He).
    rewrite Htasks, set_status_mark in Ht
      by (apply Hsub, elem_of_cons; by left).
    destruct (IH (run_task retry_budget exec s x) _
               (λ y Hy, Hsub y (proj2 (elem_of_cons _ _ _) (or_intror Hy)))
               Ht) as (Hp' & Ht' & Ho' & Hs' & He').
    rewrite Hp', Ht', Ho', Hs', He', Hp, Ho, Hs, He.
    unfold task_outputs, task_events. cbn [map concat].
    rewrite <- !app_assoc.
    repeat split; try done.
    apply map_ext. intros u. unfold mark.
    replace (P u || bool_decide (id u = id x)
             || bool_decide (id u ∈ map id l))
      with (P u || bool_decide (id u ∈ id x :: map id l)); [done|].
    rewrite <- orb_assoc. f_equal. rewrite <- bool_decide_or.
    apply bool_decide_ext. by rewrite elem_of_cons.
Qed.

Lemma in_group_mark (k : nat) (P : ResearchTask → bool) :
  (∀ u, P u = true → execution_group u ≠ k) →
  in_group k (map (mark P) ts) = in_group k ts.
Proof.
  intros HP. unfold in_group. clear ts_nodup.
  induction ts as [|u l IH]; [done|]. cbn [map List.filter].
  rewrite IH. unfold mark. destruct (P u) eqn:HPu; [|reflexivity].
  apply HP in HPu.
  change (execution_group (settled u)) with (execution_group u).
  rewrite !bool_decide_eq_false_2 by done. reflexivity.
Qed.

Lemma run_group_spec (k : nat) (s : session) :
  tasks s = map (mark (below k)) ts →
  let s' := run_group retry_budget exec k s in
  session_phase s' = session_phase s
  ∧ tasks s' = map (mark (below (S k))) ts
  ∧ outputs s' = outputs s ++ task_outputs (in_group k ts)
  ∧ synthesis s' = synthesis s
  ∧ events s' = events s ++ task_events (in_group k ts).
Proof.
  intros Htasks s'. subst s'. unfold run_group.
  rewrite Htasks, in_group_mark.
  2:{ intros u Hu%Nat.ltb_lt. lia. }
  assert (∀ x, x ∈ in_group k ts → x ∈ ts) as Hsub.
  { intros x Hx. by apply DecomposerFacts.elem_of_filter_list in Hx as [? _]. }
  pose proof (foldl_run_task (in_group k ts) s (below k) Hsub Htasks) as H.
  cbv zeta in H. destruct H as (Hp & Ht & Ho & Hs & He).
  repeat split; try done.
  rewrite Ht. apply map_ext_in. intros u Hu%list_elem_of_In.
  unfold mark.
  replace (below k u || bool_decide (id u ∈ map id (in_group k ts)))
    with (below (S k) u); [done|].
  unfold below.
  destruct (decide (execution_group u = k)) as [Hk|Hk].
  - rewrite bool_decide_eq_true_2.
    + rewrite orb_true_r. apply Nat.ltb_lt. lia.
    + apply list_elem_of_fmap_2, DecomposerFacts.elem_of_filter_list.
      split; [done|]. by apply bool_decide_eq_true.
  - rewrite bool_decide_eq_false_2.
    + rewrite orb_false_r.
      destruct (Nat.ltb_spec (execution_group u) k);
        destruct (Nat.ltb_spec (execution_group u) (S k)); try done; lia.
    + intros (v & Hid & Hv)%list_elem_of_fmap.
      apply DecomposerFacts.elem_of_filter_list in Hv as [Hv Hg].
      apply bool_decide_eq_true in Hg.
      assert (u = v) as -> by by eapply DecomposerFacts.NoDup_fmap_eq.
      done.
Qed.

Lemma run_groups_spec (n : nat) :
  ∀ (k : nat) (s : session),
  tasks s = map (mark (below k)) ts →
  let s' := run_groups retry_budget exec n k s in
  session_phase s' = Synthesizing
  ∧ tasks s' = map (mark (below (S (k + n)))) ts
  ∧ outputs s' = outputs s ++ groups_outputs n k
  ∧ synthesis s' = synthesis s
  ∧ events s' = events s ++ groups_trace n k.
Proof.
  induction n as [|n IH]; intros k s Htasks s'; subst s';
    cbn [run_groups groups_trace groups_outputs];
    pose proof (run_group_spec k s Htasks) as H; cbv zeta in H;
    destruct H as (Hp & Ht & Ho & Hs & He).
  - simpl. rewrite Ht, Ho, Hs, He, Nat.add_0_r, app_nil_r, <- app_assoc.
    done.
  - pose proof (IH (S k) (advance k (run_group retry_budget exec k s)) Ht)
      as H. cbv zeta in H. destruct H as (Hp' & Ht' & Ho' & Hs' & He').
    rewrite Hp', Ht', Ho', Hs', He'. simpl.
    rewrite Ho, Hs, He, <- !app_assoc.
    replace (S (k + n)) with (k + S n) by lia. done.
Qed.





Lemma max_group_bound (t : ResearchTask) :
  t ∈ ts → execution_group t ≤ max_group ts.
Proof.
  clear ts_nodup. induction ts as [|x l IH]; simpl.
  - by intros ?%elem_of_nil.
  - intros [->|Ht]%elem_of_cons; [lia|]. apply IH in Ht. lia.
Qed.


End over_tasks.

End run_facts.

(** *** The run is a behaviour of the scheduler *)

Section run_reachable.
Variable plan : list subtask.
Variable enabled : list string.
Variable max_concurrent : nat.
Variable retry_budget : nat.
Variable synthesize : list (string * string) → string.
Variable exec : ResearchTask → nat → option string.
Hypothesis one_worker : 0 < max_concurrent.

Abbreviation step' :=
  (step plan enabled max_concurrent retry_budget synthesize).

Lemma retries_retry (i : string) (s : session) :
  retries (retry i s) i = S (retries s i).
Proof. unfold retries at 1. simpl. by rewrite lookup_insert_eq. Qed.

Lemma attempts_reachable (left : nat) :
  ∀ (n : nat) (x : ResearchTask) (s : session) (k : nat),
  session_phase s = Executing k →
  with_status in_progress x ∈ tasks s →
  retries s (id x) + left = retry_budget →
  rtc step' s (attempts exec left n x s).
Proof.
  induction left as [|left IH]; intros n x s k Hp Hx Hre; simpl;
    destruct (exec x n) as [output|].
  - apply rtc_once.
    by apply (step_complete _ _ _ _ _ s k (with_status in_progress x)).
  - apply rtc_once.
    apply (step_fail _ _ _ _ _ s k (with_status in_progress x));
      try done. simpl. lia.
  - apply rtc_once.
    by apply (step_complete _ _ _ _ _ s k (with_status in_progress x)).
  - eapply rtc_l.
    + apply (step_retry _ _ _ _ _ s k (with_status in_progress x));
        try done. simpl. lia.
    + apply (IH _ _ _ k); try done. rewrite retries_retry. lia.
Qed.

Lemma attempts_retry_count (left : nat) :
  ∀ (n : nat) (x : ResearchTask) (s : session) (j : string),
  j ≠ id x →
  retry_count (attempts exec left n x s) !! j = retry_count s !! j.
Proof.
  induction left as [|left IH]; intros n x s j Hj; simpl;
    destruct (exec x n); try done.
  rewrite IH by done. simpl. by rewrite lookup_insert_ne.
Qed.

Lemma run_task_reachable (s : session) (x : ResearchTask) (k : nat) :
  session_phase s = Executing k →
  x ∈ tasks s → execution_group x = k → status x = pending →
  running s = 0 → retries s (id x) = 0 →
  rtc step' s (run_task retry_budget exec s x).
Proof.
  intros Hp Hx Hg Hst Hrun Hre. unfold run_task. eapply rtc_l.
  - apply (step_dispatch _ _ _ _ _ s k x); try done. lia.
  - apply (attempts_reachable _ _ _ _ k); try done.
    + simpl. unfold set_status. apply list_elem_of_fmap.
      exists x. split; [by rewrite decide_True|done].
    + unfold retries in *. simpl. lia.
Qed.

Section over_tasks.
Variable ts : list ResearchTask.
Hypothesis ts_nodup : NoDup (map id ts).
Hypothesis ts_pending : ∀ t, t ∈ ts → status t = pending.

Abbreviation mark' := (mark retry_budget exec).

Lemma running_mark (s : session) (P : ResearchTask → bool) :
  tasks s = map (mark' P) ts → running s = 0.
Proof.
  intros Ht. unfold running. rewrite Ht. clear Ht ts_nodup.
  induction ts as [|u l IH]; [done|]. cbn [map List.filter].
  rewrite bool_decide_eq_false_2.
  - apply IH. intros t Hin. apply ts_pending, elem_of_cons. by right.
  - unfold mark, settled. destruct (P u); simpl.
    + by destruct (result retry_budget exec u).
    + rewrite ts_pending; [done|]. apply elem_of_cons; by left.
Qed.

Lemma foldl_reachable (l : list ResearchTask) :
  ∀ (s : session) (P : ResearchTask → bool) (k : nat),
  NoDup (map id l) →
  (∀ x, x ∈ l → x ∈ ts ∧ execution_group x = k ∧ P x = false) →
  session_phase s = Executing k →
  tasks s = map (mark' P) ts →
  (∀ u, u ∈ ts → P u = false → retries s (id u) = 0) →
  rtc step' s (foldl (run_task retry_budget exec) s l)
  ∧ ∀ j, j ∉ map id l →
      retry_count (foldl (run_task retry_budget exec) s l) !! j
      = retry_count s !! j.
Proof.
  induction l as [|x l IH]; intros s P k Hnd Hl Hp Ht Hre; cbn [foldl].
  - split; [apply rtc_refl|done].
  - cbn [map] in Hnd. apply NoDup_cons in Hnd as [Hx Hnd].
    destruct (Hl x) as (Hxin & Hg & HP); [apply elem_of_cons; by left|].
    pose proof (run_task_spec retry_budget exec s x) as H.
    cbv zeta in H. destruct H as (Hp1 & Ht1 & _).
    rewrite Ht, (set_status_mark retry_budget exec ts ts_nodup) in Ht1
      by done.
    assert (∀ j, j ≠ id x →
              retry_count (run_task retry_budget exec s x) !! j
              = retry_count s !! j) as Hkeep.
    { intros j Hj. unfold run_task. by rewrite attempts_retry_count. }
    destruct (IH (run_task retry_budget exec s x)
                (λ u, P u || bool_decide (id u = id x)) k) as [Hrtc Hrc];
      try done.
    { intros y Hy. destruct (Hl y) as (? & ? & HPy);
        [apply elem_of_cons; by right|].
      repeat split; try done. rewrite HPy. simpl.
      apply bool_decide_eq_false. intros Heq. apply Hx. rewrite <- Heq.
      by apply list_elem_of_fmap_2. }
    { by rewrite Hp1. }
    { intros u Hu [HPu Hne%bool_decide_eq_false]%orb_false_iff.
      unfold retries. rewrite Hkeep by done. by apply Hre. }
    split.
    + etrans; [|exact Hrtc].
      apply (run_task_reachable s x k); try done.
      * rewrite Ht. apply list_elem_of_fmap.
        exists x. split; [unfold mark; by rewrite HP|done].
      * by apply ts_pending.
      * by eapply running_mark.
      * by apply Hre.
    + intros j Hj. rewrite Hrc, Hkeep; [done| |].
      * intros ->. apply Hj. cbn [map]. apply elem_of_cons; by left.
      * intros Hin. apply Hj. cbn [map]. apply elem_of_cons; by right.
Qed.

Lemma in_group_ids_nodup (k : nat) : NoDup (map id (in_group k ts)).
Proof.
  clear ts_pending. unfold in_group.
  induction ts as [|u l IH]; [constructor|].
  cbn [map] in ts_nodup. apply NoDup_cons in ts_nodup as [Hu Hnd].
  cbn [List.filter]. destruct (bool_decide (execution_group u = k));
    [|by apply IH].
  cbn [map]. apply NoDup_cons. split; [|by apply IH].
  intros (v & Hid & Hv)%list_elem_of_fmap. apply Hu. rewrite Hid.
  apply list_elem_of_fmap_2.
  by apply DecomposerFacts.elem_of_filter_list in Hv as [? _].
Qed.

Lemma run_group_reachable (k : nat) (s : session) :
  session_phase s = Executing k →
  tasks s = map (mark' (below k)) ts →
  (∀ u, u ∈ ts → below k u = false → retries s (id u) = 0) →
  rtc step' s (run_group retry_budget exec k s)
  ∧ ∀ u, u ∈ ts → below (S k) u = false →
      retries (run_group retry_budget exec k s) (id u) = 0.
Proof.
  intros Hp Ht Hre. unfold run_group. rewrite Ht, in_group_mark.
  2:{ intros u Hu%Nat.ltb_lt. lia. }
  destruct (foldl_reachable (in_group k ts) s (below k) k) as [Hrtc Hrc];
    try done.
  { apply in_group_ids_nodup. }
  { intros x [Hx Hg%bool_decide_eq_true]%DecomposerFacts.elem_of_filter_list.
    repeat split; try done. apply Nat.ltb_ge. lia. }
  split; [done|].
  intros u Hu Hbelow. unfold below in Hbelow.
  apply Nat.ltb_ge in Hbelow. unfold retries. rewrite Hrc.
  - apply Hre; [done|]. apply Nat.ltb_ge. lia.
  - intros (v & Hid & Hv)%list_elem_of_fmap.
    apply DecomposerFacts.elem_of_filter_list in Hv as [Hv Hg].
    apply bool_decide_eq_true in Hg.
    assert (u = v) as -> by by eapply DecomposerFacts.NoDup_fmap_eq.
    lia.
Qed.

Lemma max_group_attained :
  0 < max_group ts → ∃ t, t ∈ ts ∧ execution_group t = max_group ts.
Proof.
  clear ts_nodup ts_pending. induction ts as [|u l IH]; simpl; [lia|].
  intros Hpos.
  destruct (Nat.max_spec (execution_group u) (max_group l))
    as [[Hlt Heq]|[Hle Heq]]; rewrite Heq in *.
  - destruct (IH Hpos) as (t & Ht & Hg).
    exists t. split; [apply elem_of_cons; by right|done].
  - exists u. split; [apply elem_of_cons; by left|done].
Qed.

Lemma run_groups_reachable (n : nat) :
  ∀ (k : nat) (s : session),
  k + n = max_group ts →
  session_phase s = Executing k →
  tasks s = map (mark' (below k)) ts →
  (∀ u, u ∈ ts → below k u = false → retries s (id u) = 0) →
  rtc step' s (run_groups retry_budget exec n k s).
Proof.
  induction n as [|n IH]; intros k s Hmax Hp Ht Hre; cbn [run_groups];
    destruct (run_group_reachable k s Hp Ht Hre) as [Hrtc Hre'];
    pose proof (run_group_spec retry_budget exec ts ts_nodup k s Ht) as H;
    cbv zeta in H; destruct H as (Hp1 & Ht1 & _);
    assert (group_done k (tasks (run_group retry_budget exec k s)))
      as Hdone
      by (rewrite Ht1; intros t' (u & -> & Hu)%list_elem_of_fmap Hg;
          unfold mark, below, settled in *;
          destruct (Nat.ltb_spec (execution_group u) (S k)); simpl in *;
          [destruct (result retry_budget exec u); [by left|right; by left]
          |lia]).
  - eapply rtc_r; [exact Hrtc|].
    apply step_synthesis; [by rewrite Hp1|done|].
    rewrite Ht1. intros t' (u & -> & Hu)%list_elem_of_fmap.
    apply (max_group_bound ts) in Hu.
    unfold mark. destruct (below (S k) u); simpl; lia.
  - etrans; [exact Hrtc|]. eapply rtc_l.
    + apply step_advance; [by rewrite Hp1|done|].
      intros Hlast. destruct max_group_attained as (t & Hin & Hg); [lia|].
      assert (mark' (below (S k)) t ∈ tasks (run_group retry_budget exec k s))
        as Hmem by (rewrite Ht1; by apply list_elem_of_fmap_2).
      apply Hlast in Hmem.
      unfold mark in Hmem. destruct (below (S k) t); simpl in Hmem; lia.
    + apply IH; try done. lia.
Qed.

End over_tasks.

(** The state [run] ends in is one the Orchestrator reaches. *)
Lemma run_reachable (ts : list ResearchTask) :
  build plan enabled = inr ts →
  reachable plan enabled max_concurrent retry_budget synthesize
    (run plan enabled retry_budget synthesize exec).
Proof.
  intros Hbuild. unfold run, reachable. rewrite Hbuild.
  pose proof (DecomposerFacts.build_inr_tasks _ _ _ Hbuild) as [Hnd Hpend].
  set (s0 := decomposed ts (start initial)).
  eapply rtc_r; [|by apply step_finish;
    apply (run_groups_spec retry_budget exec ts Hnd (max_group ts) 0 s0);
    simpl; rewrite <- (map_id ts) at 1; apply map_ext].
  etrans; [|apply (run_groups_reachable ts Hnd Hpend (max_group ts) 0 s0);
            try done].
  - eapply rtc_l; [by apply step_start|].
    apply rtc_once. by apply step_decomposed.
  - simpl. rewrite <- (map_id ts) at 1. by apply map_ext.
Qed.

End run_reachable.

(** The events of a run, in the order they are produced. *)
Lemma run_events (plan : list subtask) (enabled : list string)
    (retry_budget : nat) (synthesize : list (string * string) → string)
    (exec : ResearchTask → nat → option string) (ts : list ResearchTask) :
  build plan enabled = inr ts →
  events (run plan enabled retry_budget synthesize exec)
  = [session_started; decomposition_complete; group_started 0]
    ++ groups_trace retry_budget exec ts (max_group ts) 0
    ++ [synthesis_complete; session_completed].
Proof.
  intros Hbuild. unfold run. rewrite Hbuild.
  apply DecomposerFacts.build_inr_tasks in Hbuild as [Hnd _].
  set (s0 := decomposed ts (start initial)).
  assert (tasks s0 = map (mark retry_budget exec (below 0)) ts) as H0.
  { simpl. rewrite <- (map_id ts) at 1. apply map_ext. done. }
  pose proof (run_groups_spec retry_budget exec ts Hnd (max_group ts) 0 s0 H0)
    as H.
  cbv zeta in H. destruct H as (_ & _ & _ & _ & He).
  simpl. rewrite He. reflexivity.
Qed.


(** *** One task in four fails for good *)

Example run4_result :
  session_phase run4 = Completed
  ∧ map (λ t, (id t, status t)) (tasks run4)
    = [("t1", completed); ("t2", completed); ("t3", failed);
       ("t4", completed)]
  ∧ synthesis run4
    = Some "# Synthesis; notes of explorer; O(n) confirmed; notes of historian"
  ∧ events run4
    = [ session_started; decomposition_complete; group_started 0;
        task_started "t1"; task_completed "t1"; group_completed 0;
        group_started 1;
        task_started "t2"; task_completed "t2";
        task_started "t3"; task_failed "t3";
        task_started "t4"; task_completed "t4"; group_completed 1;
        synthesis_started; synthesis_complete; session_completed ].
Proof. vm_compute. repeat split; reflexivity. Qed.



End OrchestratorFacts.

(** ** The Research page *)

Module AiResearchFacts.
Import AiResearch.

(** *** The task list *)

Lemma add_task_lookup (acc : gmap nat (list ResearchTaskItem))
    (task : ResearchTaskItem) (g : nat) :
  add_task acc task !! g
  = if decide (g = group_of task)
    then Some (default [] (acc !! g) ++ [task])
    else acc !! g.
Proof.
  unfold add_task. cbv zeta.
  destruct (decide (g = group_of task)) as [->|Hne].
  - rewrite lookup_insert_eq.
    destruct (acc !! group_of task) as [l|] eqn:Hl; [by rewrite Hl|].
    by rewrite lookup_insert_eq.
  - rewrite lookup_insert_ne by done.
    destruct (acc !! group_of task); [done|].
    by rewrite lookup_insert_ne.
Qed.

(** What [reduce] leaves under a key: the tasks of that group, in the
    order of the list; no key without a task. *)
Lemma foldl_add_task_lookup (tasks : list ResearchTaskItem) :
  ∀ (acc : gmap nat (list ResearchTaskItem)) (g : nat),
  foldl add_task acc tasks !! g
  = match acc !! g, filter (λ t, group_of t = g) tasks with
    | None, [] => None
    | o, l => Some (default [] o ++ l)
    end.
Proof.
  induction tasks as [|t ts IH]; intros acc g; cbn [foldl].
  - rewrite filter_nil. destruct (acc !! g); [by rewrite app_nil_r|done].
  - rewrite IH, add_task_lookup, filter_cons.
    destruct (decide (g = group_of t)) as [->|Hne].
    + rewrite decide_True by done.
      destruct (acc !! group_of t) as [l|]; simpl;
        [by rewrite <- app_assoc|done].
    + rewrite decide_False by done. reflexivity.
Qed.

Lemma groupedTasks_lookup (tasks : list ResearchTaskItem) (g : nat)
    (l : list ResearchTaskItem) :
  groupedTasks tasks !! g = Some l
  ↔ l = filter (λ t, group_of t = g) tasks ∧ l ≠ [].
Proof.
  unfold groupedTasks. rewrite foldl_add_task_lookup, lookup_empty.
  destruct (filter _ tasks) as [|t ts]; cbn [default app].
  - split; [done|]. intros [-> Hne]. done.
  - split; [intros [= <-]; done|]. intros [-> _]. done.
Qed.

Lemma insert_entry_perm {A} (x : nat * A) (l : list (nat * A)) :
  insert_entry x l ≡ₚ x :: l.
Proof.
  induction l as [|y l IH]; simpl; [done|].
  destruct (x.1 <=? y.1); [done|]. rewrite IH. apply Permutation_swap.
Qed.

Lemma sort_entries_perm {A} (l : list (nat * A)) : sort_entries l ≡ₚ l.
Proof.
  induction l as [|x l IH]; [done|].
  unfold sort_entries in *. simpl. by rewrite insert_entry_perm, IH.
Qed.

Lemma insert_entry_sorted {A} (x : nat * A) (l : list (nat * A)) :
  StronglySorted le l.*1 → StronglySorted le (insert_entry x l).*1.
Proof.
  induction l as [|y l IH]; simpl; intros Hs.
  - repeat constructor.
  - apply StronglySorted_inv in Hs as [Hs Hall].
    destruct (x.1 <=? y.1) eqn:Hle; simpl.
    + apply Nat.leb_le in Hle. constructor; [by constructor|].
      constructor; [done|]. eapply Forall_impl; [exact Hall|].
      simpl. intros; lia.
    + apply Nat.leb_gt in Hle. constructor; [by apply IH|].
      rewrite insert_entry_perm. simpl. constructor; [lia|done].
Qed.

Lemma sort_entries_sorted {A} (l : list (nat * A)) :
  StronglySorted le (sort_entries l).*1.
Proof.
  induction l as [|x l IH]; [constructor|]. by apply insert_entry_sorted.
Qed.

Lemma sorted_NoDup_strict (l : list nat) :
  StronglySorted le l → NoDup l → StronglySorted lt l.
Proof.
  induction 1 as [|x l Hs IH Hall]; intros Hnd; [constructor|].
  apply NoDup_cons in Hnd as [Hx Hnd]. constructor; [by apply IH|].
  apply Forall_forall. intros y Hy.
  pose proof (proj1 (Forall_forall _ _) Hall y Hy) as Hle.
  assert (x ≠ y) by (intros ->; done). lia.
Qed.

Lemma TasksTab_perm (tasks : list ResearchTaskItem) :
  TasksTab tasks ≡ₚ map_to_list (groupedTasks tasks).
Proof.
  destruct tasks as [|t ts]; [|apply sort_entries_perm].
  unfold groupedTasks. simpl. by rewrite map_to_list_empty.
Qed.

Lemma elem_of_TasksTab (tasks : list ResearchTaskItem) (g : nat)
    (l : list ResearchTaskItem) :
  (g, l) ∈ TasksTab tasks
  ↔ l = filter (λ t, group_of t = g) tasks ∧ l ≠ [].
Proof.
  rewrite TasksTab_perm, elem_of_map_to_list. apply groupedTasks_lookup.
Qed.

Lemma TasksTab_keys_sorted (tasks : list ResearchTaskItem) :
  StronglySorted lt (TasksTab tasks).*1.
Proof.
  apply sorted_NoDup_strict.
  - destruct tasks; [constructor|apply sort_entries_sorted].
  - rewrite TasksTab_perm. apply NoDup_fst_map_to_list.
Qed.

(** The tab shows the stages in strictly increasing order of their number,
    so none twice; a stage is shown exactly when some task belongs to it,
    and lists the tasks of its group, all of them, in the order of the
    task list.  A task without a group is listed under stage 0. *)
Theorem TasksTab_stages (tasks : list ResearchTaskItem) :
  StronglySorted lt (TasksTab tasks).*1
  ∧ ∀ g l, (g, l) ∈ TasksTab tasks
           ↔ l = filter (λ t, group_of t = g) tasks ∧ l ≠ [].
Proof. split; [apply TasksTab_keys_sorted|apply elem_of_TasksTab]. Qed.

Example TasksTab_shown :
  TasksTab shown
  = [ (0, [item "t1" "explorer" (Some 0); item "t2" "logician" None]);
      (1, [item "t3" "critic" (Some 1)]);
      (2, [item "t4" "scribe" (Some 2)]) ].
Proof. vm_compute. reflexivity. Qed.

Lemma filter_key_or (k : nat) (ks : list nat)
    (tasks : list ResearchTaskItem) :
  k ∉ ks →
  filter (λ t, group_of t = k) tasks ++ filter (λ t, group_of t ∈ ks) tasks
  ≡ₚ filter (λ t, group_of t ∈ k :: ks) tasks.
Proof.
  intros Hk. induction tasks as [|t ts IH]; [done|].
  rewrite !filter_cons.
  destruct (decide (group_of t = k)) as [Heq|Hne].
  - rewrite decide_False by (rewrite Heq; done).
    rewrite decide_True by (rewrite Heq; left).
    simpl. by rewrite IH.
  - destruct (decide (group_of t ∈ ks)) as [Hin|Hout].
    + rewrite decide_True by (by right).
      rewrite <- Permutation_middle. by rewrite IH.
    + rewrite decide_False; [done|].
      intros Hin. apply elem_of_cons in Hin as [?|?]; done.
Qed.

Lemma concat_filter_keys (ks : list nat) (tasks : list ResearchTaskItem) :
  NoDup ks →
  concat (map (λ g, filter (λ t, group_of t = g) tasks) ks)
  ≡ₚ filter (λ t, group_of t ∈ ks) tasks.
Proof.
  induction 1 as [|k ks Hk Hnd IH]; simpl.
  - induction tasks as [|t ts IHt]; [done|].
    rewrite filter_cons, decide_False; [done|]. apply not_elem_of_nil.
  - rewrite IH. by apply filter_key_or.
Qed.

(** Every task is listed exactly once: the tasks under the stages shown,
    taken together, are the tasks of the list, none lost and none
    repeated. *)
Theorem TasksTab_every_task_once (tasks : list ResearchTaskItem) :
  concat (TasksTab tasks).*2 ≡ₚ tasks.
Proof.
  assert ((TasksTab tasks).*2
          = map (λ g, filter (λ t, group_of t = g) tasks)
              (TasksTab tasks).*1) as ->.
  { assert (∀ e, e ∈ TasksTab tasks →
              e.2 = filter (λ t, group_of t = e.1) tasks) as Hall.
    { intros [g l] He. by apply elem_of_TasksTab in He as [-> _]. }
    induction (TasksTab tasks) as [|e es IH]; [done|]. simpl.
    f_equal; [apply Hall; left|]. apply IH.
    intros e' He'. apply Hall. by right. }
  rewrite concat_filter_keys.
  - induction tasks as [|t ts IH]; [done|].
    assert (∀ u, u ∈ t :: ts → group_of u ∈ (TasksTab (t :: ts)).*1)
      as Hcover.
    { intros u Hu. apply list_elem_of_fmap.
      exists (group_of u, filter (λ t', group_of t' = group_of u) (t :: ts)).
      split; [done|]. apply elem_of_TasksTab. split; [done|].
      intros Hnil. assert (u ∈ filter (λ t', group_of t' = group_of u)
                                 (t :: ts)) as Hin
        by (by apply list_elem_of_filter).
      rewrite Hnil in Hin. by apply not_elem_of_nil in Hin. }
    clear IH. revert Hcover. generalize (TasksTab (t :: ts)).*1.
    intros ks. generalize (t :: ts). intros l Hcover.
    induction l as [|u l IHl]; [done|].
    rewrite filter_cons, decide_True by (apply Hcover; left).
    rewrite IHl; [done|]. intros v Hv. apply Hcover. by right.
  - rewrite TasksTab_perm. apply NoDup_fst_map_to_list.
Qed.

End AiResearchFacts.

(** ** Running a session from the Research page *)

Module AiResearchPageFacts.
Import Json JsValue ResearchApi AiResearchPage.

(** A subscriber that supplies [onError] is told of the same lines,
    whatever its callbacks do. *)
Lemma line_calls_supplied (cb : callbacks) (line : string) :
  is_Some (onError cb) → line_calls cb line = line_calls quiet line.
Proof.
  intros [f Hf]. unfold line_calls. rewrite Hf. reflexivity.
Qed.

Lemma executeResearch_supplied (cb : callbacks) (r : response) :
  is_Some (onError cb) →
  executeResearch cb r [] = (stream_calls r, stream_outcome r).
Proof.
  intros Hcb. unfold executeResearch, stream_calls, stream_outcome.
  destruct (ok r); cbn [negb]; [|reflexivity].
  destruct (body r) as [[chunks fin]|]; [|reflexivity].
  unfold mbind, M_bind, bind.
  rewrite ResearchApiFacts.for_each_chunks_run. cbn [app].
  assert (map (line_calls cb) (concat (map split chunks))
          = map (line_calls quiet) (concat (map split chunks))) as ->.
  { apply map_ext. intros line. by apply line_calls_supplied. }
  by destruct fin.
Qed.

Lemma with_data_frame {A} (f : page → A) (k : string) (event : json)
    (set : json → page → page) (st st' : page) :
  (∀ j s, f (set j s) = f s) →
  with_data k event set st = Some st' → f st' = f st.
Proof.
  intros Hset. unfold with_data.
  destruct (get "data" event) as [data|]; [|done]. simpl.
  destruct (get_of k data) as [v|]; [|done]. simpl.
  intros [= <-]. destruct v; [|done]. destruct (truthy _); [apply Hset|done].
Qed.



Ltac frame_of f H :=
  let H' := fresh in
  pose proof H as H'; apply (with_data_frame f) in H'; [|done].

Lemma onEvent_frame (sel : ResearchSession) (event : json) (st : page) :
  error (onEvent sel event st).1 = error st
  ∧ sessions (onEvent sel event st).1 = sessions st
  ∧ selectedSession (onEvent sel event st).1 = selectedSession st
  ∧ isExecuting (onEvent sel event st).1 = isExecuting st.
Proof.
  unfold onEvent. cbv zeta.
  set (st0 := setExecutionLogs (executionLogs st ++ [event]) st).
  change (error st) with (error st0).
  change (sessions st) with (sessions st0).
  change (selectedSession st) with (selectedSession st0).
  change (isExecuting st) with (isExecuting st0).
  destruct (get "type" event) as [type|]; [|done].
  repeat match goal with
  | |- context [if ?b then _ else _] => destruct b
  | |- context [match with_data ?k ?e ?set ?s with _ => _ end] =>
      let H := fresh "H" in
      destruct (with_data k e set s) eqn:H;
      [frame_of error H; frame_of sessions H;
       frame_of selectedSession H; frame_of isExecuting H; clear H|]
  end; simpl; done.
Qed.








Lemma deliver_sessions (sel : ResearchSession) (calls : list call) :
  ∀ st, sessions (foldl (deliver sel) st calls) = sessions st.
Proof.
  induction calls as [|c calls IH]; intros st; cbn [foldl]; [done|].
  rewrite IH. destruct c as [e|event]; cbn [deliver]; [done|].
  by destruct (onEvent_frame sel event st) as (_ & -> & _).
Qed.

(** A run never adds, removes or reorders the sessions of the side bar,
    whatever the stream holds and whatever session the backend returns
    afterwards: the list keeps its ids, in order.  (Only entries with the
    id of the returned session are replaced by it.) *)
Theorem handleExecuteResearch_sessions (e : env) (st : page) :
  map id (sessions (handleExecuteResearch e st)) = map id (sessions st).
Proof.
  unfold handleExecuteResearch.
  destruct (selectedSession st) as [sel|]; [|done].
  destruct (isExecuting st); [done|]. cbv zeta.
  rewrite executeResearch_supplied by (simpl; eauto).
  destruct (stream_outcome _) as [[]|x]; simpl.
  - destruct (getSession e (id sel)) as [updated|]; simpl.
    + rewrite map_map. apply map_ext. intros s.
      destruct (String.eqb (id s) (id updated)) eqn:Heq; [|done].
      by apply String.eqb_eq in Heq.
    + by rewrite deliver_sessions.
  - by rewrite deliver_sessions.
Qed.

Example handleExecuteResearch_example :
  handleExecuteResearch (backend [synthesis_body]) idle
  = {| sessions := [{| id := "s1"; name := "Mamba vs Transformer";
                       status := "completed" |}];
       selectedSession := Some {| id := "s1"; name := "Mamba vs Transformer";
                                  status := "completed" |};
       tasks := JArr [];
       isExecuting := false;
       executionLogs :=
         [ JObj [("type", JStr "task_completed");
                 ("data", JObj [("progress", JNum false 50 0)])];
           JObj [("type", JStr "task_failed"); ("data", JNull)];
           JObj [("type", JStr "synthesis_complete");
                 ("data", JObj [("synthesis", JStr "ok")])] ];
       currentProgress := JNum false 50 0;
       synthesis := Some (JStr "ok");
       activeTab := results;
       error := Some (StreamPayload (Some (JStr "agent timeout")));
       detail_fetches := [] |}.
Proof. vm_compute. reflexivity. Qed.




End AiResearchPageFacts.

(** ** The other stream consumers *)

Module StreamApiFacts.
Import Json JsValue StreamApi.

Example generateContent_example :
  generateContent calm
    (ResearchApi.streamed [chunk_hello; chunk_done; chunk_error]) []
  = ([OnChunk (Some (JStr "Hel")); OnChunk (Some (JStr "lo"));
      OnDone (Some (JStr "s7"))], Return).
Proof. vm_compute. reflexivity. Qed.

Example aiWriting_error_example :
  aiWriting calm (ResearchApi.streamed [chunk_hello; chunk_error; chunk_done])
    []
  = ([OnChunk (Some (JStr "Hel")); OnChunk (Some (JStr "lo"));
      OnError (Some (JStr "model overloaded"))],
     Throw (StreamError (Some (JStr "model overloaded")))).
Proof. vm_compute. reflexivity. Qed.

(** The payload [null] makes a strict consumer throw a [TypeError]; a
    lenient one, like [executeResearch], skips it. *)
Example null_payload_example :
  aiWriting calm (ResearchApi.streamed ["data: null"]) []
  = ([], Throw TypeError)
  ∧ analyzeImage calm (ResearchApi.streamed ["data: null"]) []
    = ([], Next tt).
Proof. vm_compute. auto. Qed.

(** *** Computations append to the log *)

Lemma appends_ret {A} (a : A) : appends (ret a).
Proof. intros tr. unfold ret. simpl. by rewrite app_nil_r. Qed.

Lemma appends_throw {A} (e : exn) : appends (@throw A e).
Proof. intros tr. unfold throw. simpl. by rewrite app_nil_r. Qed.

Lemma appends_return {A} : appends (@return_ A).
Proof. intros tr. unfold return_. simpl. by rewrite app_nil_r. Qed.

Lemma appends_invoke (c : call) : appends (invoke c).
Proof. intros tr. reflexivity. Qed.

Lemma appends_lift {A} (e : exn) (o : option A) : appends (lift e o).
Proof. destruct o; [apply appends_ret|apply appends_throw]. Qed.

Lemma appends_bind {A B} (m : S A) (k : A → S B) :
  appends m → (∀ a, appends (k a)) → appends (bind m k).
Proof.
  intros Hm Hk tr. unfold bind. rewrite (Hm tr).
  destruct (m []) as [tr1 [a| |e]]; simpl; rewrite ?app_nil_l; try done.
  rewrite (Hk a tr1), (Hk a (tr ++ tr1)). simpl. by rewrite app_assoc.
Qed.

Lemma appends_try_catch {A} (m : S A) (h : exn → S A) :
  appends m → (∀ e, appends (h e)) → appends (try_catch m h).
Proof.
  intros Hm Hh tr. unfold try_catch. rewrite (Hm tr).
  destruct (m []) as [tr1 [a| |e]]; simpl; try done.
  rewrite (Hh e tr1), (Hh e (tr ++ tr1)). simpl. by rewrite app_assoc.
Qed.

Ltac appends_step :=
  first
    [ apply appends_ret | apply appends_throw | apply appends_return
    | apply appends_invoke | apply appends_lift
    | apply appends_bind; [|intros ?]
    | apply appends_try_catch; [|intros ?]
    | match goal with
      | |- appends (if ?b then _ else _) => destruct b
      | |- appends (match ?x with _ => _ end) => destruct x
      end ].

Lemma appends_strict_line (style : done_style) (cb : callbacks)
    (line : string) :
  appends (strict_line style cb line).
Proof.
  unfold strict_line, on_done, optional_call, call_with.
  cbv [mbind S_bind]. repeat appends_step.
Qed.

Lemma appends_lenient_line (cb : callbacks) (line : string) :
  appends (lenient_line cb line).
Proof.
  unfold lenient_line, required_call, call_with.
  cbv [mbind S_bind]. repeat appends_step.
Qed.

Lemma appends_for_each {A} (f : A → S unit) (l : list A) :
  (∀ x, appends (f x)) → appends (for_each f l).
Proof.
  intros Hf. induction l as [|x l IH]; simpl; [apply appends_ret|].
  cbv [mbind S_bind]. by apply appends_bind.
Qed.

(** *** A call that settles is the last one *)

Section ends.
Context (settles : call → bool) (after : call → outcome unit → Prop).

Lemma ends_stream_nil (out : outcome unit) :
  ends_stream settles after ([], out).
Proof. intros i c Hlook. cbn [fst] in Hlook. by rewrite lookup_nil in Hlook. Qed.

Lemma ends_stream_bind (m1 m2 : S unit) :
  appends m2 →
  ends_stream settles after (m1 []) →
  ends_stream settles after (m2 []) →
  ends_stream settles after (bind m1 (λ _, m2) []).
Proof.
  intros Hm2 H1 H2. unfold bind.
  destruct (m1 []) as [tr1 [[]| |e]] eqn:Hrun; try done.
  rewrite (Hm2 tr1). intros i c Hlook Hset. cbn [fst snd] in *.
  apply lookup_app_Some in Hlook as [Hlook|[Hle Hlook]].
  - by destruct (H1 i c Hlook Hset) as (_ & Hnext & _).
  - destruct (H2 _ c Hlook Hset) as (Hlast & Hnext & Hafter).
    rewrite length_app. repeat split; [lia|done|done].
Qed.

Lemma ends_stream_for_each {A} (f : A → S unit) (l : list A) :
  (∀ x, appends (f x)) →
  (∀ x, ends_stream settles after (f x [])) →
  ends_stream settles after (for_each f l []).
Proof.
  intros Happ Hf. induction l as [|x l IH]; simpl.
  - apply ends_stream_nil.
  - cbv [mbind S_bind]. apply ends_stream_bind; [|done|done].
    by apply appends_for_each.
Qed.

Lemma ends_stream_read_stream (handle_line : string → S unit)
    (r : ResearchApi.response) :
  (∀ line, appends (handle_line line)) →
  (∀ line, ends_stream settles after (handle_line line [])) →
  ends_stream settles after (read_stream handle_line r []).
Proof.
  intros Happ Hline. unfold read_stream.
  destruct (negb _); [apply ends_stream_nil|].
  destruct (ResearchApi.body r) as [[chunks fin]|]; [|apply ends_stream_nil].
  cbv [mbind S_bind]. apply ends_stream_bind.
  - destruct fin; [apply appends_ret|apply appends_throw].
  - apply ends_stream_for_each.
    + intros chunk. by apply appends_for_each.
    + intros chunk. by apply ends_stream_for_each.
  - destruct fin; apply ends_stream_nil.
Qed.

End ends.

(** Every way through a line, one by one. *)
Ltac split_run :=
  repeat match goal with
  | |- context [if truthy ?v then _ else _] => destruct (truthy v)
  | |- context [match onError ?cb with _ => _ end] =>
      destruct (onError cb) eqn:?
  | |- context [match onDone ?cb with _ => _ end] =>
      destruct (onDone cb) eqn:?
  | |- context [match ?s with done_silent => _ | _ => _ end] => destruct s
  | |- context [match ?f ?v with Some _ => _ | None => _ end] =>
      destruct (f v) as [[]|] eqn:?
  end.

Ltac ends_leaf :=
  let i := fresh "i" in
  let c := fresh "c" in
  let Hlook := fresh "Hlook" in
  let Hset := fresh "Hset" in
  intros i c Hlook Hset; cbn [fst snd] in *;
  repeat (destruct i as [|i]; simpl in Hlook; try discriminate Hlook);
  injection Hlook as <-;
  unfold settles_strict, settles_lenient, thrown in Hset;
  cbn [terminal andb] in Hset;
  first
    [ discriminate Hset
    | repeat match goal with
      | H : ?x = _ |- _ =>
          tryif constr_eq H Hset then fail else rewrite H in Hset
      end;
      first
        [ discriminate Hset
        | unfold after_strict, after_lenient; cbn [is_error];
          repeat split;
          first [reflexivity | discriminate | solve [intros; eauto]] ] ].

(** What a payload that is not [null] gives when read. *)
Lemma get_payload (data : json) :
  data = JNull
  ∨ ∃ content err done section_id,
      get "content" data = Some content ∧ get "error" data = Some err
      ∧ get "done" data = Some done
      ∧ get "section_id" data = Some section_id.
Proof. destruct data; [by left|right; simpl; eauto 10..]. Qed.

Lemma strict_line_ends (style : done_style) (cb : callbacks)
    (line : string) :
  ends_stream (settles_strict cb) after_strict
    (strict_line style cb line []).
Proof.
  unfold strict_line.
  destruct (String.prefix _ _); [|apply ends_stream_nil].
  destruct (JSON_parse _) as [data|]; [|apply ends_stream_nil].
  destruct (get_payload data)
    as [->|(content & err & done & sid & Hc & He & Hd & Hs)];
    [apply ends_stream_nil|].
  unfold on_done, optional_call, call_with.
  cbv [mbind S_bind bind try_catch lift ret throw return_ invoke].
  rewrite Hc, He, Hd, ?Hs. clear Hc He Hd Hs.
  split_run; cbn [app]; try apply ends_stream_nil; ends_leaf.
Qed.

Lemma lenient_line_ends (cb : callbacks) (line : string) :
  ends_stream (settles_lenient cb) after_lenient (lenient_line cb line []).
Proof.
  unfold lenient_line.
  destruct (String.prefix _ _); [|apply ends_stream_nil].
  destruct (JSON_parse _) as [data|]; [|apply ends_stream_nil].
  destruct (get_payload data)
    as [->|(content & err & done & sid & Hc & He & Hd & Hs)];
    [apply ends_stream_nil|].
  unfold required_call, call_with.
  cbv [mbind S_bind bind try_catch lift ret throw return_ invoke].
  rewrite Hc, He, Hd. clear Hc He Hd Hs.
  split_run; cbn [app]; try apply ends_stream_nil; ends_leaf.
Qed.

Lemma settled_call_is_last (settles : call → bool)
    (after : call → outcome unit → Prop) (handle_line : string → S unit)
    (r : ResearchApi.response) (pre post : list call) (c : call)
    (out : outcome unit) :
  (∀ line, appends (handle_line line)) →
  (∀ line, ends_stream settles after (handle_line line [])) →
  read_stream handle_line r [] = (pre ++ c :: post, out) →
  settles c = true →
  post = [] ∧ out ≠ Next tt ∧ after c out.
Proof.
  intros Happ Hline Hrun Hset.
  pose proof (ends_stream_read_stream settles after handle_line r Happ Hline
                (length pre) c) as Hends.
  rewrite Hrun in Hends. cbn [fst snd] in Hends.
  destruct Hends as (Hlen & Hnext & Hafter); [|done|].
  { rewrite lookup_app_r by lia. by rewrite Nat.sub_diag. }
  split; [|done]. rewrite length_app in Hlen. simpl in Hlen.
  destruct post; [done|simpl in Hlen; lia].
Qed.

(** In [aiWriting], [generateContent] and [generateRecommendation], once
    [onError] or [onDone] has been called (and has not thrown a
    [SyntaxError], which the [catch] takes for a bad line), no callback is
    called again and the function does not run to the end of the stream:
    after [onError] it throws, after [onDone] it returns, or throws what
    [onDone] threw. *)
Theorem strict_settled_call_is_last
    (f : callbacks → ResearchApi.response → S unit) (cb : callbacks)
    (r : ResearchApi.response) (pre post : list call) (c : call)
    (out : outcome unit) :
  f = aiWriting ∨ f = generateContent ∨ f = generateRecommendation →
  f cb r [] = (pre ++ c :: post, out) →
  settles_strict cb c = true →
  post = [] ∧ out ≠ Next tt ∧ (is_error c = true → ∃ e, out = Throw e).
Proof.
  intros Hf Hrun Hset.
  assert (∃ style, f cb r = read_stream (strict_line style cb) r)
    as [style Heq].
  { destruct Hf as [-> | [-> | ->]]; eexists; reflexivity. }
  rewrite Heq in Hrun.
  apply (settled_call_is_last (settles_strict cb) after_strict
           (strict_line style cb) r pre post c out); try done.
  - intros line. apply appends_strict_line.
  - intros line. apply strict_line_ends.
Qed.

Lemma strict_settled_call_is_last_witness :
  (aiWriting = aiWriting ∨ aiWriting = generateContent
   ∨ aiWriting = generateRecommendation)
  ∧ aiWriting calm
      (ResearchApi.streamed [chunk_hello; chunk_error; chunk_done]) []
    = ([OnChunk (Some (JStr "Hel")); OnChunk (Some (JStr "lo"))]
       ++ OnError (Some (JStr "model overloaded")) :: [],
       Throw (StreamError (Some (JStr "model overloaded"))))
  ∧ settles_strict calm (OnError (Some (JStr "model overloaded"))) = true
  ∧ @nil call = []
  ∧ Throw (StreamError (Some (JStr "model overloaded"))) ≠ Next tt
  ∧ (is_error (OnError (Some (JStr "model overloaded"))) = true →
     ∃ e, Throw (StreamError (Some (JStr "model overloaded")))
          = @Throw unit e).
Proof.
  assert (aiWriting calm
            (ResearchApi.streamed [chunk_hello; chunk_error; chunk_done]) []
          = ([OnChunk (Some (JStr "Hel")); OnChunk (Some (JStr "lo"))]
             ++ OnError (Some (JStr "model overloaded")) :: [],
             Throw (StreamError (Some (JStr "model overloaded")))))
    as Hrun by (vm_compute; reflexivity).
  split; [by left|]. split; [exact Hrun|]. split; [reflexivity|].
  exact (strict_settled_call_is_last aiWriting calm _ _ _ _ _
           (or_introl eq_refl) Hrun eq_refl).
Defined.

(** In [analyzeImage] and [analyzeUploadedImage], once [onError] or
    [onDone] has been called and has returned, no callback is called
    again and the function returns at once. *)
Theorem lenient_settled_call_is_last
    (f : callbacks → ResearchApi.response → S unit) (cb : callbacks)
    (r : ResearchApi.response) (pre post : list call) (c : call)
    (out : outcome unit) :
  f = analyzeImage ∨ f = analyzeUploadedImage →
  f cb r [] = (pre ++ c :: post, out) →
  settles_lenient cb c = true →
  post = [] ∧ out = Return.
Proof.
  intros Hf Hrun Hset.
  assert (f cb r = read_stream (lenient_line cb) r) as Heq
    by (by destruct Hf as [-> | ->]).
  rewrite Heq in Hrun.
  destruct (settled_call_is_last (settles_lenient cb) after_lenient
              (lenient_line cb) r pre post c out) as (Hpost & _ & Hout);
    try done.
  - intros line. apply appends_lenient_line.
  - intros line. apply lenient_line_ends.
Qed.

Lemma lenient_settled_call_is_last_witness :
  (analyzeImage = analyzeImage ∨ analyzeImage = analyzeUploadedImage)
  ∧ analyzeImage calm
      (ResearchApi.streamed [chunk_hello; chunk_done; chunk_error]) []
    = ([OnChunk (Some (JStr "Hel")); OnChunk (Some (JStr "lo"))]
       ++ OnDone None :: [], Return)
  ∧ settles_lenient calm (OnDone None) = true
  ∧ @nil call = []
  ∧ @Return unit = Return.
Proof.
  assert (analyzeImage calm
            (ResearchApi.streamed [chunk_hello; chunk_done; chunk_error]) []
          = ([OnChunk (Some (JStr "Hel")); OnChunk (Some (JStr "lo"))]
             ++ OnDone None :: [], Return))
    as Hrun by (vm_compute; reflexivity).
  split; [by left|]. split; [exact Hrun|]. split; [reflexivity|].
  exact (lenient_settled_call_is_last analyzeImage calm _ _ _ _ _
           (or_introl eq_refl) Hrun eq_refl).
Defined.

(** *** What the lenient consumers never do *)

Lemma lenient_line_never_throws (cb : callbacks) (line : string)
    (tr : list call) (e : exn) :
  (lenient_line cb line tr).2 ≠ Throw e.
Proof.
  unfold lenient_line. destruct (String.prefix _ _); [|done].
  unfold try_catch.
  match goal with |- context [match ?m tr with _ => _ end] =>
    destruct (m tr) as [tr' [[]| |e']] end; done.
Qed.

Lemma for_each_never_throws {A} (f : A → S unit) (l : list A) :
  (∀ x tr e, (f x tr).2 ≠ Throw e) →
  ∀ tr e, (for_each f l tr).2 ≠ Throw e.
Proof.
  intros Hf. induction l as [|x l IH]; intros tr e; simpl; [done|].
  cbv [mbind S_bind bind]. pose proof (Hf x tr) as Hx.
  destruct (f x tr) as [tr' [[]| |e']]; [apply IH|done|].
  by destruct (Hx e').
Qed.

(** [analyzeImage] and [analyzeUploadedImage] do not throw on an ok
    response whose body is read to its end, whatever the lines hold and
    whatever the callbacks throw: every exception raised while a line is
    handled is ignored. *)
Theorem lenient_never_throws
    (f : callbacks → ResearchApi.response → S unit) (cb : callbacks)
    (r : ResearchApi.response) :
  f = analyzeImage ∨ f = analyzeUploadedImage →
  ResearchApi.ok r = true →
  (∀ chunks, ResearchApi.body r ≠ Some (chunks, ResearchApi.Broken)) →
  ∀ e, (f cb r []).2 ≠ Throw e.
Proof.
  intros Hf Hok Hbody e.
  assert (f cb r = read_stream (lenient_line cb) r) as ->
    by (by destruct Hf as [-> | ->]).
  unfold read_stream. rewrite Hok. cbn [negb].
  destruct (ResearchApi.body r) as [[chunks fin]|] eqn:Hb; [|done].
  destruct fin; [|by destruct (Hbody chunks)].
  cbv [mbind S_bind bind].
  assert (∀ chunk tr e0,
            (for_each (lenient_line cb) (ResearchApi.split chunk) tr).2
            ≠ Throw e0) as Hchunk.
  { intros chunk. apply for_each_never_throws.
    intros line tr e0. apply lenient_line_never_throws. }
  pose proof (for_each_never_throws _ chunks Hchunk []) as Hrun.
  destruct (for_each _ chunks []) as [tr' [[]| |e']]; done.
Qed.

Lemma lenient_never_throws_witness :
  (analyzeImage = analyzeImage ∨ analyzeImage = analyzeUploadedImage)
  ∧ ResearchApi.ok (ResearchApi.streamed [chunk_hello; "data: null"]) = true
  ∧ (∀ chunks, ResearchApi.body
                 (ResearchApi.streamed [chunk_hello; "data: null"])
               ≠ Some (chunks, ResearchApi.Broken))
  ∧ ∀ e, (analyzeImage rude
            (ResearchApi.streamed [chunk_hello; "data: null"]) []).2
         ≠ Throw e.
Proof.
  assert (∀ chunks, ResearchApi.body
                      (ResearchApi.streamed [chunk_hello; "data: null"])
                    ≠ Some (chunks, ResearchApi.Broken)) as Hbody
    by (intros chunks; simpl; congruence).
  split; [by left|]. split; [reflexivity|]. split; [exact Hbody|].
  exact (lenient_never_throws analyzeImage rude
           (ResearchApi.streamed [chunk_hello; "data: null"])
           (or_introl eq_refl) eq_refl Hbody).
Defined.

(** *** Nothing is read after a return *)

Lemma for_each_app_return {A} (f : A → S unit) (l more : list A)
    (calls : list call) :
  ∀ tr, for_each f l tr = (calls, Return) →
        for_each f (l ++ more) tr = (calls, Return).
Proof.
  induction l as [|x l IH]; intros tr; simpl; [done|].
  cbv [mbind S_bind bind].
  destruct (f x tr) as [tr' [[]| |e]]; [apply IH|done|done].
Qed.

Lemma read_stream_app_return (handle_line : string → S unit)
    (chunks more : list string) (fin : ResearchApi.stream_end)
    (calls : list call) :
  read_stream handle_line (ResearchApi.streamed chunks) [] = (calls, Return) →
  read_stream handle_line
    {| ResearchApi.ok := true;
       ResearchApi.body := Some (chunks ++ more, fin) |} []
  = (calls, Return).
Proof.
  unfold read_stream, ResearchApi.streamed. cbn [ResearchApi.ok
    ResearchApi.body negb]. cbv [mbind S_bind bind].
  destruct (for_each _ chunks []) as [tr' [[]| |e]] eqn:Hrun; try done.
  intros [= <-]. by rewrite (for_each_app_return _ _ _ _ _ Hrun).
Qed.

(** Once one of the five consumers has returned on a payload ([done], or
    for the lenient ones [error]), what the stream holds after the chunk
    read so far makes no difference: further chunks are not read, and a
    stream that breaks later is not noticed. *)
Theorem stream_over_after_return
    (f : callbacks → ResearchApi.response → S unit) (cb : callbacks)
    (chunks more : list string) (fin : ResearchApi.stream_end)
    (calls : list call) :
  f = aiWriting ∨ f = generateContent ∨ f = generateRecommendation
  ∨ f = analyzeImage ∨ f = analyzeUploadedImage →
  f cb (ResearchApi.streamed chunks) [] = (calls, Return) →
  f cb {| ResearchApi.ok := true;
          ResearchApi.body := Some (chunks ++ more, fin) |} []
  = (calls, Return).
Proof.
  intros [-> | [-> | [-> | [-> | ->]]]]; apply read_stream_app_return.
Qed.

Lemma stream_over_after_return_witness :
  (generateContent = aiWriting ∨ generateContent = generateContent
   ∨ generateContent = generateRecommendation
   ∨ generateContent = analyzeImage
   ∨ generateContent = analyzeUploadedImage)
  ∧ generateContent calm (ResearchApi.streamed [chunk_hello; chunk_done]) []
    = ([OnChunk (Some (JStr "Hel")); OnChunk (Some (JStr "lo"));
        OnDone (Some (JStr "s7"))], Return)
  ∧ generateContent calm
      {| ResearchApi.ok := true;
         ResearchApi.body :=
           Some ([chunk_hello; chunk_done] ++ [chunk_error],
                 ResearchApi.Broken) |} []
    = ([OnChunk (Some (JStr "Hel")); OnChunk (Some (JStr "lo"));
        OnDone (Some (JStr "s7"))], Return).
Proof.
  assert (generateContent calm
            (ResearchApi.streamed [chunk_hello; chunk_done]) []
          = ([OnChunk (Some (JStr "Hel")); OnChunk (Some (JStr "lo"));
              OnDone (Some (JStr "s7"))], Return)) as Hrun
    by (vm_compute; reflexivity).
  split; [right; by left|]. split; [exact Hrun|].
  exact (stream_over_after_return generateContent calm
           [chunk_hello; chunk_done] [chunk_error] ResearchApi.Broken _
           (or_intror (or_introl eq_refl)) Hrun).
Defined.

End StreamApiFacts.

(** ** The agent list *)

Module AiTeamsListFacts.
Import AiTeams AiTeamsList.

Example agent_list_all_example :
  agent_list all roster
  = [(Some reasoning, [critic]); (Some information, [my_scout; scout])].
Proof. reflexivity. Qed.

Example agent_list_custom_example :
  agent_list custom roster = [(None, [my_scout])].
Proof. reflexivity. Qed.

Lemma add_profile_lookup (acc : AgentCluster → option (list listed))
    (p : listed) (c : AgentCluster) :
  add_profile acc p c
  = if decide (c = cluster p) then Some (default [] (acc c) ++ [p])
    else acc c.
Proof.
  unfold add_profile. destruct (decide (c = cluster p)) as [->|Hne].
  - destruct (acc (cluster p)) eqn:Hacc; [by rewrite Hacc|].
    by rewrite decide_True.
  - destruct (acc (cluster p)); [done|]. by rewrite decide_False.
Qed.

(** What [reduce] leaves under a cluster: its profiles, in list order; no
    key for a cluster without a profile. *)
Lemma foldl_add_profile (ps : list listed) :
  ∀ (acc : AgentCluster → option (list listed)) (c : AgentCluster),
  default [] (foldl add_profile acc ps c)
  = default [] (acc c) ++ filter (λ p, cluster p = c) ps.
Proof.
  induction ps as [|p ps IH]; intros acc c; cbn [foldl].
  - by rewrite filter_nil, app_nil_r.
  - rewrite IH, add_profile_lookup, filter_cons.
    destruct (decide (c = cluster p)) as [->|Hne].
    + rewrite decide_True by done. simpl. by rewrite <- app_assoc.
    + by rewrite decide_False.
Qed.

Lemma groupedProfiles_lookup (ps : list listed) (c : AgentCluster) :
  default [] (groupedProfiles ps c) = filter (λ p, cluster p = c) ps.
Proof. unfold groupedProfiles. by rewrite foldl_add_profile. Qed.

Lemma filteredProfiles_all (ps : list listed) : filteredProfiles all ps = ps.
Proof.
  unfold filteredProfiles. induction ps as [|p ps IH]; [done|].
  simpl. by rewrite IH.
Qed.

(** The grouped view has one section for every cluster that has a
    profile, in the order reasoning, information, production,
    coordination, and a section lists the profiles of its cluster, all of
    them, in the order of the profile list. *)
Theorem agent_list_all_sections (ps : list listed) :
  agent_list all ps
  = omap (λ c, match filter (λ p, cluster p = c) ps with
               | [] => None
               | l => Some (Some c, l)
               end)
      [reasoning; information; production; coordination].
Proof.
  unfold agent_list. rewrite filteredProfiles_all.
  unfold CLUSTER_CONFIG_keys. cbn [omap list_omap].
  by rewrite !groupedProfiles_lookup.
Qed.

Lemma filter_clusters_perm (ps : list listed) :
  filter (λ p, cluster p = reasoning) ps
  ++ filter (λ p, cluster p = information) ps
  ++ filter (λ p, cluster p = production) ps
  ++ filter (λ p, cluster p = coordination) ps
  ≡ₚ ps.
Proof.
  induction ps as [|p ps IH]; [done|].
  rewrite !filter_cons.
  destruct (cluster p); simpl; repeat rewrite <- Permutation_middle;
    by rewrite IH.
Qed.

(** In every view each profile that passes the filter has exactly one
    card, and no other profile has one; with the filter [all] that is
    every profile. *)
Theorem agent_list_shows_filtered (selectedCluster : cluster_filter)
    (ps : list listed) :
  concat (agent_list selectedCluster ps).*2
  ≡ₚ filteredProfiles selectedCluster ps.
Proof.
  destruct selectedCluster as [| |c];
    [|simpl; by rewrite app_nil_r..].
  unfold agent_list. rewrite filteredProfiles_all.
  unfold CLUSTER_CONFIG_keys. cbn [omap list_omap].
  rewrite !groupedProfiles_lookup.
  transitivity
    (filter (λ p, cluster p = reasoning) ps
     ++ filter (λ p, cluster p = information) ps
     ++ filter (λ p, cluster p = production) ps
     ++ filter (λ p, cluster p = coordination) ps);
    [|apply filter_clusters_perm].
  generalize (filter (λ p, cluster p = reasoning) ps).
  generalize (filter (λ p, cluster p = information) ps).
  generalize (filter (λ p, cluster p = production) ps).
  generalize (filter (λ p, cluster p = coordination) ps).
  intros [|d D] [|c C] [|b B] [|a A]; simpl; by rewrite ?app_nil_r.
Qed.

End AiTeamsListFacts.

(** ** Deleting a profile over HTTP *)

Module AiTeamsBackendFacts.
Import Json JsValue FetchApi AiTeams AiTeamsBackend.

Example fetchApiWithAuth_examples :
  fetchApiWithAuth {| status := 204; text := "" |} = Ok None
  ∧ fetchApi {| status := 204; text := "" |} = Throw SyntaxError
  ∧ fetchApiWithAuth forbidden
    = Throw (Error (JStr "Cannot delete default agents"))
  ∧ fetchApiWithAuth {| status := 502; text := "<html>Bad Gateway</html>" |}
    = Throw (Error (JStr "Request failed"))
  ∧ fetchApiWithAuth {| status := 500; text := "null" |} = Throw TypeError.
Proof. vm_compute. auto 10. Qed.

(** What [handleDeleteProfile] shows for a custom profile the user
    confirms, by the server's answer.  An ok answer that is 204 or has a
    JSON body removes the profile and shows no new error.  An answer that
    is not ok and carries the standard error format shows its [detail],
    and one whose body is not JSON shows [Request failed]; both leave the
    list as it was.  An ok answer other than 204 whose body is not JSON
    also leaves the profile in the list and shows an error, though the
    server has deleted it. *)
Theorem delete_over_http (engine : exn → string) (server : string → reply)
    (confirm : AgentProfile → bool) (profile : AgentProfile) (st : page) :
  is_custom profile = true →
  confirm profile = true →
  let st' := handleDeleteProfile (over engine server confirm) profile st in
  let r := server (id profile) in
  (ok r = true → status r = 204 ∨ is_Some (JSON_parse (text r)) →
   profiles st' = filter (λ p, id p ≠ id profile) (profiles st)
   ∧ error st' = error st)
  ∧ (ok r = false →
     ∀ ms s, JSON_parse (text r) = Some (JObj ms) →
             lookup_member "detail" ms = Some (JStr s) → s ≠ "" →
             profiles st' = profiles st ∧ error st' = Some s)
  ∧ (ok r = false → JSON_parse (text r) = None →
     profiles st' = profiles st ∧ error st' = Some "Request failed")
  ∧ (ok r = true → status r ≠ 204 → JSON_parse (text r) = None →
     profiles st' = profiles st ∧ error st' = Some (engine SyntaxError)).
Proof.
  intros Hcustom Hconfirm st' r. subst st'.
  unfold handleDeleteProfile, over.
  cbn [AiTeams.confirm AiTeams.deleteProfile].
  rewrite Hcustom, Hconfirm. cbn [negb].
  unfold deleteProfile, fetchApiWithAuth, request_failed, json_of. fold r.
  split; [|split; [|split]].
  - intros Hok Hbody. rewrite Hok. cbn [negb].
    destruct (status r =? 204) eqn:H204; [done|].
    apply Nat.eqb_neq in H204. destruct Hbody as [?|[v Hv]]; [done|].
    by rewrite Hv.
  - intros Hok ms s Hparse Hdetail Hs. rewrite Hok, Hparse. simpl.
    rewrite Hdetail. simpl. by destruct s.
  - intros Hok Hparse. by rewrite Hok, Hparse.
  - intros Hok H204 Hparse. rewrite Hok, Hparse. cbn [negb].
    apply Nat.eqb_neq in H204. by rewrite H204.
Qed.

Lemma delete_over_http_witness :
  is_custom my_agent = true
  ∧ (λ _ : AgentProfile, true) my_agent = true
  ∧ let st' :=
      handleDeleteProfile (over plain_engine (λ _, forbidden) (λ _, true))
        my_agent team in
    profiles st' = profiles team
    ∧ error st' = Some "Cannot delete default agents".
Proof.
  split; [reflexivity|]. split; [reflexivity|].
  refine (proj1 (proj2 (delete_over_http plain_engine (λ _, forbidden)
                          (λ _, true) my_agent team eq_refl eq_refl))
            eq_refl _ "Cannot delete default agents" _ _ _).
  - vm_compute. reflexivity.
  - reflexivity.
  - discriminate.
Defined.

End AiTeamsBackendFacts.
